(** * Frames-to-video conversion and the KITTI drive batch driver

    A shallow embedding of [frames_to_video.py] ([create_video]) and
    [process_kitti_drives.py] ([process_all_drives]).

    The scripts are thin sequential wrappers around three collaborators that
    stay opaque here: the filesystem ([glob.glob], [os.path.isdir]), the image
    decoder ([cv2.imread]) and the video sink ([cv2.VideoWriter]).  The
    collaborators are gathered in a [World] record, together with what the
    scripts never ask them: whether the sink opened, and whether the output
    directory could be made.  Every call of the scripts (console lines, writer
    calls, file removal) is appended to a trace and applied to a store of
    video files, and an uncaught Python exception is an explicit result of the
    monad. *)

From Stdlib Require Import ZArith Ascii String List Sorting.Sorted Sorting.Permutation.
From stdpp Require Import base option list strings gmap.

Open Scope string_scope.
Open Scope list_scope.

(** ** Python string helpers

    A Python [str] is kept as a [string] of code points below 256; among
    those the digits matched by [\d] are ['0'] to ['9'], and strings compare
    by code point. *)

Module PyStr.

(** [c == '/'] *)
Definition is_sep (c : ascii) : bool := Ascii.eqb c "/".

(** [c] is matched by the regular expression [\d] (decimal digits). *)
Definition is_digit (c : ascii) : bool :=
  (48 <=? nat_of_ascii c)%nat && (nat_of_ascii c <=? 57)%nat.

(** ['/' in s] *)
Fixpoint has_sep (s : string) : bool :=
  match s with
  | EmptyString => false
  | String c s' => is_sep c || has_sep s'
  end.

(** [s.startswith('/')] *)
Definition startswith_sep (s : string) : bool :=
  match s with
  | String c _ => is_sep c
  | EmptyString => false
  end.

(** [s.endswith('/')] *)
Fixpoint endswith_sep (s : string) : bool :=
  match s with
  | EmptyString => false
  | String c EmptyString => is_sep c
  | String _ s' => endswith_sep s'
  end.

(** [posixpath.basename]: [i = p.rfind('/') + 1; return p[i:]]. *)
Fixpoint basename (p : string) : string :=
  match p with
  | EmptyString => EmptyString
  | String c p' =>
      if has_sep p' then basename p'
      else if is_sep c then p'
      else p
  end.

(** [posixpath.join(a, *p)]: a component starting with ['/'] discards what
    came before; otherwise it is appended, after a ['/'] unless the path so
    far is empty or already ends with one. *)
Definition join_step (path b : string) : string :=
  if startswith_sep b then b
  else if (String.length path =? 0)%nat || endswith_sep path then path +:+ b
  else path +:+ "/" +:+ b.

Definition path_join (a : string) (p : list string) : string :=
  fold_left join_step p a.

(** [s.replace(old, new)] for a non-empty [old]: occurrences are found left
    to right and do not overlap.  [skip] counts the characters of a matched
    occurrence that are still to be dropped. *)
Fixpoint replace_from (old new : string) (skip : nat) (s : string) : string :=
  match s with
  | EmptyString => EmptyString
  | String c s' =>
      match skip with
      | S k => replace_from old new k s'
      | O =>
          if String.prefix old s
          then new +:+ replace_from old new (String.length old - 1) s'
          else String c (replace_from old new 0 s')
      end
  end.

Definition replace (s old new : string) : string := replace_from old new 0 s.

(** The longest run of digits at the head of [s]. *)
Fixpoint take_digits (s : string) : string :=
  match s with
  | EmptyString => EmptyString
  | String c s' => if is_digit c then String c (take_digits s') else EmptyString
  end.

(** [re.search(r'\d+', s)]: the leftmost, longest run of digits; [None]
    when [s] has no digit.  [Some r] stands for a match object whose
    [.group()] is [r]. *)
Fixpoint re_search_digits (s : string) : option string :=
  match s with
  | EmptyString => None
  | String c s' => if is_digit c then Some (take_digits s) else re_search_digits s'
  end.

(** The value of a digit character. *)
Definition digit_value (c : ascii) : Z := Z.of_nat (nat_of_ascii c) - 48.

Fixpoint int_from (acc : Z) (r : string) : Z :=
  match r with
  | EmptyString => acc
  | String c r' => int_from (10 * acc + digit_value c) r'
  end.

(** [int(r)] for a string of decimal digits, read in base ten; Python
    integers are unbounded. *)
Definition int (r : string) : Z := int_from 0 r.

End PyStr.

(** ** [list.sort]

    Python's [list.sort] is a stable sort: elements that compare equal keep
    their relative order.  It is modelled by stable insertion. *)

Module PySort.

Section Insertion.
Context {A : Type} (le : A -> A -> bool).

Fixpoint insert (x : A) (l : list A) : list A :=
  match l with
  | [] => [x]
  | y :: l' => if le x y then x :: l else y :: insert x l'
  end.

Fixpoint sort (l : list A) : list A :=
  match l with
  | [] => []
  | x :: l' => insert x (sort l')
  end.
End Insertion.

(** [l.sort()] on a list of strings: code-point lexicographic order. *)
Definition sort_str (l : list string) : list string := sort String.leb l.

(** [l.sort(key=...)] once every key has been computed: the elements are
    compared by their keys only. *)
Definition le_key (a b : Z * string) : bool := (a.1 <=? b.1)%Z.

Definition sort_keyed (keys : list Z) (l : list string) : list string :=
  (sort le_key (zip keys l)).*2.

End PySort.


(** ** Data model *)

(** A decoded image, as [cv2.imread(path)] returns it.  The scripts pass no
    flag, and with the default flag the decoder converts every image to
    three colour channels: the array is [height] x [width] x 3. *)
Record Frame := mkFrame {
  height : nat;
  width : nat;
  pixels : list N
}.


(** A Python [float] (IEEE-754 binary64) kept as its bit pattern: the scripts
    never compute with the frame rate, they hand it to the encoder. *)
Record float := Float64 { float_bits : Z }.

(** The Python exceptions the modelled calls can raise. *)
Inductive Exn :=
| AttributeError
| IndexError
| FileNotFoundError
| FileExistsError
| IsADirectoryError
| NotADirectoryError
| PermissionError.

(** The collaborators the scripts call but do not define. *)
Record World := mkWorld {
  (* [glob.glob(pattern)], in directory order *)
  glob : string -> list string;
  (* [os.path.isdir(path)] *)
  isdir : string -> bool;
  (* [cv2.imread(path)]; [None] when the file cannot be decoded *)
  imread : string -> option Frame;
  (* whether [cv2.VideoWriter(path, fourcc, fps, size)] opens its sink: it
     does not when the directory of [path] is missing or the encoder refuses
     the frame rate or the size, and it reports nothing then *)
  writer_opens : string -> string -> float -> nat * nat -> bool;
  (* the exception [os.makedirs(path, exist_ok=True)] raises, if any:
     [FileNotFoundError] for an empty path, [FileExistsError] when a regular
     file is in the way, [NotADirectoryError] or [PermissionError] when the
     parent cannot take the directory *)
  makedirs : string -> option Exn
}.

(** The file behind a [cv2.VideoWriter]. *)
Record VideoFile := mkVideo {
  vf_fourcc : string;
  vf_fps : float;
  vf_size : nat * nat;              (* (width, height) *)
  vf_frames : list Frame;
  vf_released : bool
}.

(** Console lines, one constructor per [print] / [tqdm.write] of the scripts. *)
Inductive Message :=
| MsgStart
| MsgInputFolder (image_folder : string)
| MsgOutputVideo (output_video_path : string)
| MsgFrameRate (fps : float)
| MsgImageType (image_ext : string)
| MsgNoImages (image_ext image_folder : string)
| MsgFoundSorted (n : nat)
| MsgSortWarning
| MsgSortAdvice
| MsgFirstUnreadable (path : string)
| MsgDimensions (w h : nat)
| MsgWriting
| MsgDifferentResolution (name : string)
| MsgExpectedGot (w h w' h' : nat)
| MsgAborting
| MsgComplete
| MsgSaved (output_video_path : string)
| MsgDriveStart
| MsgSearching (kitti_test_root : string)
| MsgNoDrives
| MsgFoundDrives (n : nat)
| MsgSavedIn (output_dir : string)
| MsgProcessing (drive_name : string)
| MsgSkipping (drive_name : string)
| MsgExpectedAt (rgb_image_folder : string)
| MsgAllProcessed.

(** The calls the scripts make, in order: console lines, and the calls on
    the sink and on the filesystem with their arguments.  A call that returns
    is recorded whether or not it has an effect: a writer whose sink did not
    open takes [write] and [release] and does nothing.  Of a call that
    raises, [os.makedirs] is recorded and [os.remove] is not: the exception
    is the result of the run. *)
Inductive Event :=
| EPrint (m : Message)
| EOpen (path fourcc : string) (fps : float) (size : nat * nat)
| EWrite (path : string) (frame : Frame)
| ERelease (path : string)
| ERemove (path : string)
| EMakedirs (path : string).

Record State := mkState {
  trace : list Event;
  files : gmap string VideoFile
}.

(** How a call ends: it returns a value, or an exception leaves it. *)

Inductive Result (A : Type) :=
| Ok (a : A)
| Raise (e : Exn).
Arguments Ok {A} a.
Arguments Raise {A} e.

(** ** State and exception monad

    The state is threaded through every call and survives an exception: what
    was printed and written before a [Raise] stays. *)

Definition M (A : Type) : Type := State -> State * Result A.

#[global] Instance M_ret : MRet M := fun A a s => (s, Ok a).

#[global] Instance M_bind : MBind M := fun A B f m s =>
  match m s with
  | (s', Ok a) => f a s'
  | (s', Raise e) => (s', Raise e)
  end.

Definition raise {A} (e : Exn) : M A := fun s => (s, Raise e).

Definition emit (e : Event) : M unit :=
  fun s => (mkState (trace s ++ [e]) (files s), Ok tt).

Definition update_files (f : gmap string VideoFile -> gmap string VideoFile) : M unit :=
  fun s => (mkState (trace s) (f (files s)), Ok tt).

Definition print (m : Message) : M unit := emit (EPrint m).

(** ** The video sink and the filesystem calls *)

(** A [cv2.VideoWriter] object: the path it was created for and whether its
    sink opened, which is what [isOpened()] would tell. *)
Record Writer := mkWriter {
  wr_path : string;
  wr_opened : bool
}.

(** [cv2.VideoWriter(path, fourcc, fps, size)].  When the sink opens there is
    a fresh, empty file at [path]; when it does not, no file is created, what
    was at [path] stays, and the constructor returns all the same. *)
Definition VideoWriter (w : World) (path fourcc : string) (fps : float)
    (size : nat * nat) : M Writer :=
  emit (EOpen path fourcc fps size);;
  if writer_opens w path fourcc fps size then
    update_files (insert path (mkVideo fourcc fps size [] false));;
    mret (mkWriter path true)
  else
    mret (mkWriter path false).

(** A released writer ignores further frames. *)
Definition append_frame (frame : Frame) (v : VideoFile) : VideoFile :=
  if vf_released v then v
  else mkVideo (vf_fourcc v) (vf_fps v) (vf_size v) (vf_frames v ++ [frame]) false.

(** The file once its writer is released. *)
Definition finish (v : VideoFile) : VideoFile :=
  mkVideo (vf_fourcc v) (vf_fps v) (vf_size v) (vf_frames v) true.

(** Apply [f] to the file at [path], when there is one. *)
Definition modify (path : string) (f : VideoFile -> VideoFile)
    (fs : gmap string VideoFile) : gmap string VideoFile :=
  match fs !! path with
  | Some v => <[path := f v]> fs
  | None => fs
  end.

(** [video_writer.write(frame)]: nothing is written by a writer whose sink
    did not open. *)
Definition writer_write (video_writer : Writer) (frame : Frame) : M unit :=
  emit (EWrite (wr_path video_writer) frame);;
  if wr_opened video_writer then
    update_files (modify (wr_path video_writer) (append_frame frame))
  else
    mret tt.

(** [video_writer.release()] *)
Definition writer_release (video_writer : Writer) : M unit :=
  emit (ERelease (wr_path video_writer));;
  if wr_opened video_writer then
    update_files (modify (wr_path video_writer) finish)
  else
    mret tt.

(** What [os.remove(path)] raises when there is no file at [path]:
    [IsADirectoryError] when [path] is a directory, [FileNotFoundError] when
    nothing is there. *)
Definition remove_error (w : World) (path : string) : Exn :=
  if isdir w path then IsADirectoryError else FileNotFoundError.

(** [os.remove(path)] *)
Definition os_remove (w : World) (path : string) : M unit := fun s =>
  match files s !! path with
  | Some _ => (emit (ERemove path);; update_files (delete path)) s
  | None => raise (remove_error w path) s
  end.

(** [os.makedirs(path, exist_ok=True)] *)
Definition os_makedirs (w : World) (path : string) : M unit :=
  emit (EMakedirs path);;
  match makedirs w path with
  | Some e => raise e
  | None => mret tt
  end.

(** ** frames_to_video.py *)

(** The sort key [int(re.search(r'\d+', os.path.basename(f)).group())];
    [None] when [re.search] finds nothing, where [.group()] raises
    [AttributeError]. *)
Definition sort_key (f : string) : option Z :=
  PyStr.int <$> PyStr.re_search_digits (PyStr.basename f).

(** Lines 37-43: the numeric sort, and the alphabetical sort of the whole
    list when a key cannot be computed. *)
Definition sort_image_files (image_files : list string) : M (list string) :=
  match mapM sort_key image_files with
  | Some keys =>
      print (MsgFoundSorted (length image_files));;
      mret (PySort.sort_keyed keys image_files)
  | None =>
      print MsgSortWarning;;
      print MsgSortAdvice;;
      mret (PySort.sort_str image_files)
  end.

(** How the [for] loop over the frames ends: it runs out of frames, or its
    body executes [return]. *)
Inductive LoopExit := Exhausted | Returned.

(** [frame.shape[0] != height or frame.shape[1] != width] *)
Definition resolution_differs (frame : Frame) (height0 width0 : nat) : bool :=
  negb (height frame =? height0)%nat || negb (width frame =? width0)%nat.

(** Lines 65-77.  [cv2.imread] returns [None] for an unreadable file, and
    [frame.shape] on [None] raises [AttributeError]. *)
Fixpoint write_frames (w : World) (video_writer : Writer) (output_video_path : string)
    (height0 width0 : nat) (image_files : list string) : M LoopExit :=
  match image_files with
  | [] => mret Exhausted
  | image_path :: rest =>
      match imread w image_path with
      | None => raise AttributeError
      | Some frame =>
          if resolution_differs frame height0 width0 then
            print (MsgDifferentResolution (PyStr.basename image_path));;
            print (MsgExpectedGot width0 height0 (width frame) (height frame));;
            print MsgAborting;;
            writer_release video_writer;;
            os_remove w output_video_path;;
            mret Returned
          else
            writer_write video_writer frame;;
            write_frames w video_writer output_video_path height0 width0 rest
      end
  end.

(** [create_video], lines 8-82.  Every [return] of the function returns
    [None]: the outcome shows in what was printed and in the files.  The
    writer is never asked whether it opened (line 61). *)
Definition create_video (w : World) (image_folder output_video_path : string)
    (fps : float) (image_ext : string) : M unit :=
  print MsgStart;;
  print (MsgInputFolder image_folder);;
  print (MsgOutputVideo output_video_path);;
  print (MsgFrameRate fps);;
  print (MsgImageType image_ext);;
  let search_pattern := PyStr.path_join image_folder ["*." +:+ image_ext] in
  let image_files := glob w search_pattern in
  match image_files with
  | [] => print (MsgNoImages image_ext image_folder)
  | _ :: _ =>
      image_files ← sort_image_files image_files;
      match image_files with
      | [] => raise IndexError                      (* [image_files[0]] *)
      | first :: _ =>
          match imread w first with
          | None => print (MsgFirstUnreadable first)
          | Some first_frame =>
              let height0 := height first_frame in
              let width0 := width first_frame in
              let size := (width0, height0) in
              print (MsgDimensions width0 height0);;
              video_writer ← VideoWriter w output_video_path "mp4v" fps size;
              print MsgWriting;;
              exit ← write_frames w video_writer output_video_path height0 width0 image_files;
              match exit with
              | Returned => mret tt
              | Exhausted =>
                  writer_release video_writer;;
                  print MsgComplete;;
                  print (MsgSaved output_video_path)
              end
          end
      end
  end.

(** ** process_kitti_drives.py *)

(** [os.path.basename(drive_path).replace('_sync', '')] *)
Definition drive_name_of (drive_path : string) : string :=
  PyStr.replace (PyStr.basename drive_path) "_sync" "".

(** [os.path.join(output_dir, f"{drive_name}.mp4")] *)
Definition output_video_path_of (output_dir drive_path : string) : string :=
  PyStr.path_join output_dir [drive_name_of drive_path +:+ ".mp4"].

(** [os.path.join(drive_path, "image_02", "data")] *)
Definition rgb_image_folder_of (drive_path : string) : string :=
  PyStr.path_join drive_path ["image_02"; "data"].

(** The body of the loop over the drives, lines 46-73. *)
Definition process_drive (w : World) (output_dir : string) (fps : float)
    (drive_path : string) : M unit :=
  let drive_name := drive_name_of drive_path in
  print (MsgProcessing drive_name);;
  let rgb_image_folder := rgb_image_folder_of drive_path in
  if negb (isdir w rgb_image_folder) then
    print (MsgSkipping drive_name);;
    print (MsgExpectedAt rgb_image_folder)
  else
    create_video w rgb_image_folder (output_video_path_of output_dir drive_path) fps "png".

(** [for x in l: body(x)] *)
Fixpoint for_each {A} (body : A -> M unit) (l : list A) : M unit :=
  match l with
  | [] => mret tt
  | x :: l' => body x;; for_each body l'
  end.

(** [process_all_drives], lines 16-75. *)
Definition process_all_drives (w : World) (kitti_test_root output_dir : string)
    (fps : float) : M unit :=
  print MsgDriveStart;;
  print (MsgSearching kitti_test_root);;
  let drive_paths := PySort.sort_str (glob w (PyStr.path_join kitti_test_root ["*"; "*_sync"])) in
  match drive_paths with
  | [] => print MsgNoDrives
  | _ :: _ =>
      print (MsgFoundDrives (length drive_paths));;
      os_makedirs w output_dir;;
      print (MsgSavedIn output_dir);;
      for_each (process_drive w output_dir fps) drive_paths;;
      print MsgAllProcessed
  end.

(** Nothing printed yet, no video file. *)
Definition initial : State := mkState [] ∅.

(** ** Vocabulary of the statements *)

(** The order in which [create_video] visits the frames: the value that
    [sort_image_files] returns. *)
Definition sorted_files (image_files : list string) : list string :=
  match mapM sort_key image_files with
  | Some keys => PySort.sort_keyed keys image_files
  | None => PySort.sort_str image_files
  end.

(** What [sort_image_files] prints. *)
Definition sort_messages (image_files : list string) : list Event :=
  match mapM sort_key image_files with
  | Some _ => [EPrint (MsgFoundSorted (length image_files))]
  | None => [EPrint MsgSortWarning; EPrint MsgSortAdvice]
  end.

(** Every character of [s] is a decimal digit. *)
Fixpoint all_digits (s : string) : bool :=
  match s with
  | EmptyString => true
  | String c s' => PyStr.is_digit c && all_digits s'
  end.

(** No character of [s] is a decimal digit. *)
Fixpoint no_digit (s : string) : bool :=
  match s with
  | EmptyString => true
  | String c s' => negb (PyStr.is_digit c) && no_digit s'
  end.

(** [s] begins with a decimal digit. *)
Definition starts_with_digit (s : string) : bool :=
  match s with
  | String c _ => PyStr.is_digit c
  | EmptyString => false
  end.

(** The basename of [f] contains a run of decimal digits. *)
Definition has_digit_run (f : string) : Prop :=
  is_Some (PyStr.re_search_digits (PyStr.basename f)).

(** [a] comes no later than [b] in the numeric order of their first digit runs. *)
Definition key_le (a b : string) : Prop :=
  exists ka kb, sort_key a = Some ka /\ sort_key b = Some kb /\ (ka <= kb)%Z.

(** Decorated lists in which every element carries its own key. *)
Definition keyed (l : list (Z * string)) : Prop :=
  Forall (fun p => sort_key p.2 = Some p.1) l.

(** Following the spec's words for the ordering key, "the first run of
    decimal digits found anywhere in each filename, parsed as an integer":
    the definitions below are stated on the path as a string and use none of
    the functions of the script. *)










(** What a writer leaves at its path: the file [v] when its sink opened,
    nothing when it did not. *)
Definition stored (opened : bool) (path : string) (v : VideoFile)
    : list (string * option VideoFile) :=
  if opened then [(path, Some v)] else [].

(** The file of a writer after [frames] more frames were appended. *)
Definition grow (v : VideoFile) (frames : list Frame) : VideoFile :=
  mkVideo (vf_fourcc v) (vf_fps v) (vf_size v) (vf_frames v ++ frames) false.

(** The glob pattern of [create_video]. *)
Definition search_pattern_of (image_folder image_ext : string) : string :=
  PyStr.path_join image_folder ["*." +:+ image_ext].

(** What [create_video] has printed and done when it enters its loop. *)
Definition preamble (image_folder output_video_path : string) (fps : float)
    (image_ext : string) (image_files : list string) (first_frame : Frame) : list Event :=
  [EPrint MsgStart; EPrint (MsgInputFolder image_folder);
   EPrint (MsgOutputVideo output_video_path); EPrint (MsgFrameRate fps);
   EPrint (MsgImageType image_ext)]
  ++ sort_messages image_files
  ++ [EPrint (MsgDimensions (width first_frame) (height first_frame));
      EOpen output_video_path "mp4v" fps (width first_frame, height first_frame);
      EPrint MsgWriting].

(** What the loop prints and does when it meets a frame of another size. *)
Definition abort_events (output_video_path image_path : string)
    (height0 width0 : nat) (frame : Frame) : list Event :=
  [EPrint (MsgDifferentResolution (PyStr.basename image_path));
   EPrint (MsgExpectedGot width0 height0 (width frame) (height frame));
   EPrint MsgAborting;
   ERelease output_video_path;
   ERemove output_video_path].

(** The same up to the call of [os.remove], which raises when it finds no
    file at the output path. *)
Definition abort_events_no_file (output_video_path image_path : string)
    (height0 width0 : nat) (frame : Frame) : list Event :=
  [EPrint (MsgDifferentResolution (PyStr.basename image_path));
   EPrint (MsgExpectedGot width0 height0 (width frame) (height frame));
   EPrint MsgAborting;
   ERelease output_video_path].

(** The end of the loop of [create_video], lines 79-82 and the [return] of
    line 75. *)
Definition after_loop (video_writer : Writer) (output_video_path : string)
    (exit : LoopExit) : M unit :=
  match exit with
  | Returned => mret tt
  | Exhausted =>
      writer_release video_writer;;
      print MsgComplete;;
      print (MsgSaved output_video_path)
  end.

(** The frames in [pre] decode to [frames], all of the expected size. *)
Definition accepted (w : World) (h0 w0 : nat) (pre : list string) (frames : list Frame) : Prop :=
  Forall2 (fun p f => imread w p = Some f /\ resolution_differs f h0 w0 = false) pre frames.

(** ['_sync' in s], and more generally [sub in s]. *)
Fixpoint contains (sub s : string) : bool :=
  match s with
  | EmptyString => String.prefix sub EmptyString
  | String _ s' => String.prefix sub s || contains sub s'
  end.

(** Following the spec's words for the drive name: [s] with the trailing
    [suffix] removed and nothing else changed ([s] itself when it does not
    end with [suffix]). *)
Fixpoint strip_suffix (suffix s : string) : string :=
  match s with
  | EmptyString => EmptyString
  | String c s' => if String.eqb s suffix then EmptyString else String c (strip_suffix suffix s')
  end.

(** The separator that [os.path.join] puts after [dir]. *)
Definition separator_after (dir : string) : string :=
  if (String.length dir =? 0)%nat || PyStr.endswith_sep dir then "" else "/".

(** ** Concrete inputs *)

Definition lookup_alist {A} (l : list (string * A)) (k : string) : option A :=
  snd <$> List.find (fun p => String.eqb p.1 k) l.

(** A world given by its directory listings (glob pattern to matches), its
    directories and its readable images, in which every sink opens and the
    output directory can be made. *)
Definition world_of (listing : list (string * list string)) (dirs : list string)
    (images : list (string * Frame)) : World :=
  mkWorld (fun pattern => default [] (lookup_alist listing pattern))
          (fun path => bool_decide (path ∈ dirs))
          (lookup_alist images)
          (fun _ _ _ _ => true)
          (fun _ => None).

(** The frame rate 10.0. *)
Definition fps10 : float := Float64 4621819117588971520.

(** The frame rate 0.0. *)
Definition fps0 : float := Float64 0.

(** An encoder that refuses the frame rate 0.0 and opens otherwise. *)
Definition refuses_zero_rate (path fourcc : string) (fps : float) (size : nat * nat) : bool :=
  negb (float_bits fps =? 0)%Z.


(** The world [w] with another encoder. *)
Definition with_encoder (opens : string -> string -> float -> nat * nat -> bool)
    (w : World) : World :=
  mkWorld (glob w) (isdir w) (imread w) opens (makedirs w).

(** The world [w] in which [os.makedirs] raises [e] for [path]. *)
Definition with_makedirs_error (path : string) (e : Exn) (w : World) : World :=
  mkWorld (glob w) (isdir w) (imread w) (writer_opens w)
          (fun p => if String.eqb p path then Some e else makedirs w p).

Definition rgb (h w : nat) (tag : N) : Frame := mkFrame h w [tag].

(** Three frames of 4x2 pixels, found out of order. *)
Definition uniform_world : World :=
  world_of [("in/*.png", ["in/frame10.png"; "in/frame2.png"; "in/frame1.png"])] []
           [("in/frame1.png", rgb 2 4 1); ("in/frame2.png", rgb 2 4 2);
            ("in/frame10.png", rgb 2 4 10)].

(** Five frames, the third of another size. *)
Definition mismatch_world : World :=
  world_of [("in/*.png", ["in/1.png"; "in/2.png"; "in/3.png"; "in/4.png"; "in/5.png"])] []
           [("in/1.png", rgb 2 4 1); ("in/2.png", rgb 2 4 2); ("in/3.png", rgb 3 4 3);
            ("in/4.png", rgb 2 4 4); ("in/5.png", rgb 2 4 5)].

(** Three frames: the second cannot be decoded, the third has another size. *)
Definition unreadable_world : World :=
  world_of [("in/*.png", ["in/1.png"; "in/2.png"; "in/3.png"])] []
           [("in/1.png", rgb 2 4 1); ("in/3.png", rgb 3 4 3)].

(** Three frames of 4x2 pixels in a folder whose name carries digits; the
    files are found as frame10, frame9b, frame2. *)
Definition numbered_world : World :=
  world_of [("drive_0002/data/*.png",
             ["drive_0002/data/frame10.png"; "drive_0002/data/frame9b.png";
              "drive_0002/data/frame2.png"])] []
           [("drive_0002/data/frame2.png", rgb 2 4 2);
            ("drive_0002/data/frame9b.png", rgb 2 4 9);
            ("drive_0002/data/frame10.png", rgb 2 4 10)].

(** The three frames of [uniform_world], with an encoder that refuses the
    frame rate it is given. *)
Definition zero_rate_world : World := with_encoder refuses_zero_rate uniform_world.

(** The five frames of [mismatch_world], with the same encoder. *)
Definition zero_rate_mismatch_world : World := with_encoder refuses_zero_rate mismatch_world.

(** Two frames, the second of which cannot be decoded. *)
Definition broken_world : World :=
  world_of [("in/*.png", ["in/1.png"; "in/2.png"])] []
           [("in/1.png", rgb 2 4 1)].

(** How a drive fares in [process_all_drives]: its image folder is missing,
    or [create_video] leaves a released video at the output path, or it does
    not. *)
Inductive DriveOutcome := Converted | Skipped | Failed.

#[global] Instance DriveOutcome_eq_dec : EqDecision DriveOutcome.
Proof. solve_decision. Defined.

Definition drive_outcome (w : World) (output_dir : string) (fps : float)
    (drive_path : string) : DriveOutcome :=
  if negb (isdir w (rgb_image_folder_of drive_path)) then Skipped
  else
    match create_video w (rgb_image_folder_of drive_path)
            (output_video_path_of output_dir drive_path) fps "png" initial with
    | (s', Ok _) =>
        match files s' !! output_video_path_of output_dir drive_path with
        | Some v => if vf_released v then Converted else Failed
        | None => Failed
        end
    | (_, Raise _) => Failed
    end.

(** The drives of a batch, in processing order. *)
Definition drive_paths_of (w : World) (kitti_test_root : string) : list string :=
  PySort.sort_str (glob w (PyStr.path_join kitti_test_root ["*"; "*_sync"])).

(** The figures a summary of the batch would hold: drives discovered,
    converted, skipped and failed. *)
Definition tally (w : World) (kitti_test_root output_dir : string) (fps : float)
    : nat * nat * nat * nat :=
  let outcomes := drive_outcome w output_dir fps <$> drive_paths_of w kitti_test_root in
  (length outcomes,
   length (filter (fun o => o = Converted) outcomes),
   length (filter (fun o => o = Skipped) outcomes),
   length (filter (fun o => o = Failed) outcomes)).




Definition drive2 : string := "kitti/2011_09_26/2011_09_26_drive_0002_sync".
Definition drive5 : string := "kitti/2011_09_26/2011_09_26_drive_0005_sync".
Definition data2 : string := "kitti/2011_09_26/2011_09_26_drive_0002_sync/image_02/data".
Definition data5 : string := "kitti/2011_09_26/2011_09_26_drive_0005_sync/image_02/data".

(** Two drives with their image folders; the second frame of the first
    drive cannot be decoded. *)
Definition failing_batch : World :=
  world_of
    [("kitti/*/*_sync", [drive5; drive2]);
     (data2 +:+ "/*.png", [data2 +:+ "/0000000000.png"; data2 +:+ "/0000000001.png"]);
     (data5 +:+ "/*.png", [data5 +:+ "/0000000000.png"])]
    [data2; data5]
    [(data2 +:+ "/0000000000.png", rgb 2 4 0);
     (data5 +:+ "/0000000000.png", rgb 2 4 50)].



(** The drive 0002 with its image folder and the drive 0005 without. *)
Definition mixed_batch : World :=
  world_of
    [("kitti/*/*_sync", [drive5; drive2]);
     (data2 +:+ "/*.png", [data2 +:+ "/0000000000.png"])]
    [data2]
    [(data2 +:+ "/0000000000.png", rgb 2 4 0)].

(** ** Runs told from the world *)

(** The five prints that open [create_video]. *)
Definition banner (image_folder output_video_path : string) (fps : float)
    (image_ext : string) : list Event :=
  [EPrint MsgStart; EPrint (MsgInputFolder image_folder);
   EPrint (MsgOutputVideo output_video_path); EPrint (MsgFrameRate fps);
   EPrint (MsgImageType image_ext)].

(** What a run leaves of a file: [(path, Some v)] stores [v] at [path],
    [(path, None)] removes the file at [path]. *)
Definition apply_op (fs : gmap string VideoFile) (op : string * option VideoFile)
    : gmap string VideoFile :=
  match op.2 with
  | Some v => <[op.1 := v]> fs
  | None => delete op.1 fs
  end.

Definition apply_ops (ops : list (string * option VideoFile))
    (fs : gmap string VideoFile) : gmap string VideoFile :=
  fold_left apply_op ops fs.

(** The state after a run that appended [t] and left [ops]. *)
Definition after (t : list Event) (ops : list (string * option VideoFile)) (s : State) : State :=
  mkState (trace s ++ t) (apply_ops ops (files s)).

(** The ways a call of [create_video] can go, told from the world: what it
    appends to the trace, what it leaves of the file at the output path, how
    it ends.  A frame of another size ends the call in one of two ways: the
    file at the output path is removed, or there is none to remove (the sink
    did not open and nothing was there before) and [os.remove] raises. *)
Inductive Run (w : World) (image_folder out : string) (fps : float) (ext : string)
    : list Event -> list (string * option VideoFile) -> Result unit -> Prop :=
| RunNoFrames :
    glob w (search_pattern_of image_folder ext) = [] ->
    Run w image_folder out fps ext
      (banner image_folder out fps ext ++ [EPrint (MsgNoImages ext image_folder)])
      [] (Ok tt)
| RunFirstUnreadable first rest :
    sorted_files (glob w (search_pattern_of image_folder ext)) = first :: rest ->
    imread w first = None ->
    Run w image_folder out fps ext
      (banner image_folder out fps ext
         ++ sort_messages (glob w (search_pattern_of image_folder ext))
         ++ [EPrint (MsgFirstUnreadable first)])
      [] (Ok tt)
| RunComplete first rest first_frame frames :
    sorted_files (glob w (search_pattern_of image_folder ext)) = first :: rest ->
    accepted w (height first_frame) (width first_frame) (first :: rest) (first_frame :: frames) ->
    Run w image_folder out fps ext
      (preamble image_folder out fps ext
         (glob w (search_pattern_of image_folder ext)) first_frame
         ++ (EWrite out <$> first_frame :: frames)
         ++ [ERelease out; EPrint MsgComplete; EPrint (MsgSaved out)])
      (stored (writer_opens w out "mp4v" fps (width first_frame, height first_frame)) out
         (mkVideo "mp4v" fps (width first_frame, height first_frame)
            (first_frame :: frames) true))
      (Ok tt)
| RunMismatch first pre bad post first_frame frames bad_frame :
    sorted_files (glob w (search_pattern_of image_folder ext)) = (first :: pre) ++ bad :: post ->
    accepted w (height first_frame) (width first_frame) (first :: pre) (first_frame :: frames) ->
    imread w bad = Some bad_frame ->
    resolution_differs bad_frame (height first_frame) (width first_frame) = true ->
    Run w image_folder out fps ext
      (preamble image_folder out fps ext
         (glob w (search_pattern_of image_folder ext)) first_frame
         ++ (EWrite out <$> first_frame :: frames)
         ++ abort_events out bad (height first_frame) (width first_frame) bad_frame)
      [(out, None)]
      (Ok tt)
| RunMismatchNoFile first pre bad post first_frame frames bad_frame :
    sorted_files (glob w (search_pattern_of image_folder ext)) = (first :: pre) ++ bad :: post ->
    accepted w (height first_frame) (width first_frame) (first :: pre) (first_frame :: frames) ->
    imread w bad = Some bad_frame ->
    resolution_differs bad_frame (height first_frame) (width first_frame) = true ->
    writer_opens w out "mp4v" fps (width first_frame, height first_frame) = false ->
    Run w image_folder out fps ext
      (preamble image_folder out fps ext
         (glob w (search_pattern_of image_folder ext)) first_frame
         ++ (EWrite out <$> first_frame :: frames)
         ++ abort_events_no_file out bad (height first_frame) (width first_frame) bad_frame)
      []
      (Raise (remove_error w out))
| RunCrash first pre bad post first_frame frames :
    sorted_files (glob w (search_pattern_of image_folder ext)) = (first :: pre) ++ bad :: post ->
    accepted w (height first_frame) (width first_frame) (first :: pre) (first_frame :: frames) ->
    imread w bad = None ->
    Run w image_folder out fps ext
      (preamble image_folder out fps ext
         (glob w (search_pattern_of image_folder ext)) first_frame
         ++ (EWrite out <$> first_frame :: frames))
      (stored (writer_opens w out "mp4v" fps (width first_frame, height first_frame)) out
         (mkVideo "mp4v" fps (width first_frame, height first_frame)
            (first_frame :: frames) false))
      (Raise AttributeError).

(** The last thing [ops] does to the file at [path], if anything. *)
Fixpoint last_op (path : string) (ops : list (string * option VideoFile))
    : option (option VideoFile) :=
  match ops with
  | [] => None
  | op :: rest =>
      match last_op path rest with
      | Some x => Some x
      | None => if decide (op.1 = path) then Some op.2 else None
      end
  end.

(** Every frame of the video has the size the video declares. *)
Definition sized (v : VideoFile) : Prop :=
  Forall (fun f => (width f, height f) = vf_size v) (vf_frames v).

(** A folder in which no file matches. *)
Definition empty_world : World := world_of [] [] [].

(** A folder whose only file cannot be decoded. *)
Definition undecodable_world : World :=
  world_of [("in/*.png", ["in/1.png"])] [] [].

(** The drive named by a "Processing drive" line. *)
Definition processing_line (e : Event) : option string :=
  match e with
  | EPrint (MsgProcessing drive_name) => Some drive_name
  | _ => None
  end.

(** The drive named by a "Skipping" warning. *)
Definition skipping_line (e : Event) : option string :=
  match e with
  | EPrint (MsgSkipping drive_name) => Some drive_name
  | _ => None
  end.

(** What [process_drive] prints for a drive without its image folder. *)
Definition skip_events (drive_path : string) : list Event :=
  [EPrint (MsgProcessing (drive_name_of drive_path));
   EPrint (MsgSkipping (drive_name_of drive_path));
   EPrint (MsgExpectedAt (rgb_image_folder_of drive_path))].

(** The ways the loop over the drives can go, each drive with an image
    folder going one of the ways of [Run]. *)
Inductive Batch (w : World) (output_dir : string) (fps : float)
    : list string -> list Event -> list (string * option VideoFile) -> Result unit -> Prop :=
| BatchEnd :
    Batch w output_dir fps [] [] [] (Ok tt)
| BatchSkip d ds t ops r :
    isdir w (rgb_image_folder_of d) = false ->
    Batch w output_dir fps ds t ops r ->
    Batch w output_dir fps (d :: ds) (skip_events d ++ t) ops r
| BatchConvert d ds t1 ops1 t ops r :
    isdir w (rgb_image_folder_of d) = true ->
    Run w (rgb_image_folder_of d) (output_video_path_of output_dir d) fps "png"
        t1 ops1 (Ok tt) ->
    Batch w output_dir fps ds t ops r ->
    Batch w output_dir fps (d :: ds)
          (EPrint (MsgProcessing (drive_name_of d)) :: t1 ++ t) (ops1 ++ ops) r
| BatchRaise d ds t1 ops1 e :
    isdir w (rgb_image_folder_of d) = true ->
    Run w (rgb_image_folder_of d) (output_video_path_of output_dir d) fps "png"
        t1 ops1 (Raise e) ->
    Batch w output_dir fps (d :: ds)
          (EPrint (MsgProcessing (drive_name_of d)) :: t1) ops1 (Raise e).

(** What [process_all_drives] prints and does before the first drive. *)
Definition batch_opening (kitti_test_root output_dir : string) (n : nat) : list Event :=
  [EPrint MsgDriveStart; EPrint (MsgSearching kitti_test_root);
   EPrint (MsgFoundDrives n); EMakedirs output_dir; EPrint (MsgSavedIn output_dir)].

(** What it prints after the last drive, when it gets there. *)
Definition batch_closing (r : Result unit) : list Event :=
  match r with
  | Ok _ => [EPrint MsgAllProcessed]
  | Raise _ => []
  end.

(** What it has printed and done when [os.makedirs] raises. *)
Definition batch_refused (kitti_test_root output_dir : string) (n : nat) : list Event :=
  [EPrint MsgDriveStart; EPrint (MsgSearching kitti_test_root);
   EPrint (MsgFoundDrives n); EMakedirs output_dir].

(** The ways a call of [process_all_drives] can go: no drive is found; or
    the output directory cannot be made; or the loop runs over the drives. *)
Inductive BatchRun (w : World) (kitti_test_root output_dir : string) (fps : float)
    : list Event -> list (string * option VideoFile) -> Result unit -> Prop :=
| BatchNoDrives :
    drive_paths_of w kitti_test_root = [] ->
    BatchRun w kitti_test_root output_dir fps
      [EPrint MsgDriveStart; EPrint (MsgSearching kitti_test_root); EPrint MsgNoDrives]
      [] (Ok tt)
| BatchRefused e :
    drive_paths_of w kitti_test_root <> [] ->
    makedirs w output_dir = Some e ->
    BatchRun w kitti_test_root output_dir fps
      (batch_refused kitti_test_root output_dir (length (drive_paths_of w kitti_test_root)))
      [] (Raise e)
| BatchLoop t ops r :
    drive_paths_of w kitti_test_root <> [] ->
    makedirs w output_dir = None ->
    Batch w output_dir fps (drive_paths_of w kitti_test_root) t ops r ->
    BatchRun w kitti_test_root output_dir fps
      (batch_opening kitti_test_root output_dir (length (drive_paths_of w kitti_test_root))
         ++ t ++ batch_closing r)
      ops r.

(** Every sink asked for at the frame rate [fps] opens. *)
Definition sinks_open (w : World) (fps : float) : Prop :=
  forall path size, writer_opens w path "mp4v" fps size = true.

(** The drives of a batch that have their image folder. *)
Definition drives_with_folder (w : World) (kitti_test_root : string) : list string :=
  filter (fun d => isdir w (rgb_image_folder_of d) = true) (drive_paths_of w kitti_test_root).

(** The drives of a batch that lack it. *)
Definition drives_without_folder (w : World) (kitti_test_root : string) : list string :=
  filter (fun d => isdir w (rgb_image_folder_of d) = false) (drive_paths_of w kitti_test_root).

(** A root under which no drive is found. *)
Definition no_drives_world : World := world_of [] [] [].

(** The same three drives, listed by the filesystem in two orders. *)
Definition listing_a : World :=
  world_of [("kitti/*/*_sync", ["kitti/d/c_sync"; "kitti/d/a_sync"; "kitti/d/b_sync"])] [] [].
Definition listing_b : World :=
  world_of [("kitti/*/*_sync", ["kitti/d/a_sync"; "kitti/d/c_sync"; "kitti/d/b_sync"])] [] [].

(** [f] is [folder/stem<digits>suffix] with exactly [n] digits. *)
Definition zero_padded (folder stem suffix : string) (n : nat) (f : string) : Prop :=
  exists d,
    f = folder +:+ "/" +:+ stem +:+ d +:+ suffix /\
    all_digits d = true /\ String.length d = n.

(** * Properties *)

(** ** Facts about the sort *)

Module PySortFacts.
Import PySort.

Section Insertion.
Context {A : Type} (le : A -> A -> bool).

Lemma insert_perm x l : insert le x l ≡ₚ x :: l.
Proof.
  induction l as [|y l IH]; simpl; [done|].
  destruct (le x y); [done|].
  rewrite IH. apply perm_swap.
Qed.

Lemma sort_perm l : sort le l ≡ₚ l.
Proof.
  induction l as [|x l IH]; simpl; [done|].
  by rewrite insert_perm, IH.
Qed.

Lemma sort_length l : length (sort le l) = length l.
Proof. apply Permutation_length, sort_perm. Qed.

Section Order.
Hypothesis le_total : forall a b, le a b = true \/ le b a = true.
Hypothesis le_trans : forall a b c, le a b = true -> le b c = true -> le a c = true.

Lemma insert_sorted x l :
  StronglySorted (fun a b => le a b = true) l ->
  StronglySorted (fun a b => le a b = true) (insert le x l).
Proof.
  induction 1 as [|y l Hs IH Hy]; simpl.
  - repeat constructor.
  - destruct (le x y) eqn:Hxy.
    + constructor; [by constructor|].
      constructor; [done|].
      eapply Forall_impl; [exact Hy|]. intros z Hz. by eapply le_trans.
    + constructor; [done|].
      rewrite insert_perm. constructor; [|done].
      destruct (le_total x y) as [H|H]; [congruence|done].
Qed.

Lemma sort_sorted l : StronglySorted (fun a b => le a b = true) (sort le l).
Proof.
  induction l as [|x l IH]; simpl; [constructor|].
  by apply insert_sorted.
Qed.
End Order.

(** Stability: the elements that share a key keep their order. *)
Section Stable.
Context {K : Type} `{EqDecision K} (key : A -> K).
Hypothesis le_key_eq : forall a b, key a = key b -> le a b = true.

Lemma insert_stable k x l :
  filter (fun a => key a = k) (insert le x l) = filter (fun a => key a = k) (x :: l).
Proof.
  induction l as [|y l IH]; simpl; [done|].
  destruct (le x y) eqn:Hxy; [done|].
  rewrite filter_cons, IH, !filter_cons.
  repeat case_decide; try done.
  rewrite (le_key_eq x y) in Hxy; congruence.
Qed.

Lemma sort_stable k l :
  filter (fun a => key a = k) (sort le l) = filter (fun a => key a = k) l.
Proof.
  induction l as [|x l IH]; simpl; [done|].
  by rewrite insert_stable, !filter_cons, IH.
Qed.
End Stable.
End Insertion.

(** The code-point order on strings is a total preorder. *)
Lemma ascii_compare_lt_trans a b c :
  Ascii.compare a b = Lt -> Ascii.compare b c = Lt -> Ascii.compare a c = Lt.
Proof. unfold Ascii.compare. rewrite !N.compare_lt_iff. lia. Qed.

Lemma string_compare_le_trans s1 : forall s2 s3,
  String.compare s1 s2 <> Gt -> String.compare s2 s3 <> Gt -> String.compare s1 s3 <> Gt.
Proof.
  induction s1 as [|a s1 IH]; intros [|b s2] [|c s3]; simpl; try done.
  destruct (Ascii.compare a b) eqn:Hab; [|clear IH|done];
    (destruct (Ascii.compare b c) eqn:Hbc; [| |done]); intros H12 H23.
  - apply Ascii.compare_eq_iff in Hab, Hbc. subst.
    assert (Ascii.compare c c = Eq) as -> by (unfold Ascii.compare; apply N.compare_refl).
    by eapply IH.
  - apply Ascii.compare_eq_iff in Hab. subst. by rewrite Hbc.
  - apply Ascii.compare_eq_iff in Hbc. subst. by rewrite Hab.
  - by rewrite (ascii_compare_lt_trans a b c).
Qed.

Lemma string_leb_trans s1 s2 s3 :
  String.leb s1 s2 = true -> String.leb s2 s3 = true -> String.leb s1 s3 = true.
Proof.
  unfold String.leb. intros H12 H23.
  pose proof (string_compare_le_trans s1 s2 s3) as H.
  destruct (String.compare s1 s2), (String.compare s2 s3), (String.compare s1 s3);
    try done; exfalso; by apply H.
Qed.

Lemma sort_str_perm l : sort_str l ≡ₚ l.
Proof. apply sort_perm. Qed.

Lemma sort_str_sorted l :
  StronglySorted (fun a b => String.leb a b = true) (sort_str l).
Proof. apply sort_sorted; [apply String.leb_total | apply string_leb_trans]. Qed.

Lemma le_key_total a b : le_key a b = true \/ le_key b a = true.
Proof. unfold le_key. lia. Qed.

Lemma le_key_trans a b c : le_key a b = true -> le_key b c = true -> le_key a c = true.
Proof. unfold le_key. lia. Qed.

End PySortFacts.

(** ** String append *)

Lemma append_cons c s t : String c s +:+ t = String c (s +:+ t).
Proof. reflexivity. Qed.

Lemma append_nil t : "" +:+ t = t.
Proof. reflexivity. Qed.

(** ** Ordering of the frames *)

Section Ordering.
Import PySort PySortFacts.

Lemma sort_image_files_run image_files s :
  sort_image_files image_files s =
    (mkState (trace s ++ sort_messages image_files) (files s),
     Ok (sorted_files image_files)).
Proof.
  unfold sort_image_files, sort_messages, sorted_files.
  destruct (mapM sort_key image_files); [done|].
  unfold mbind, M_bind, print, emit; simpl. by rewrite <- app_assoc.
Qed.

Lemma keyed_zip image_files keys :
  mapM sort_key image_files = Some keys -> keyed (zip keys image_files).
Proof.
  intros H. apply mapM_Some_1 in H. unfold keyed.
  induction H; simpl; constructor; auto.
Qed.

Lemma keyed_sorted l :
  keyed l ->
  StronglySorted (fun a b => le_key a b = true) l ->
  StronglySorted key_le (l.*2).
Proof.
  intros Hk Hs. induction Hs as [|p l Hs IH Hp]; simpl; [constructor|].
  apply Forall_cons in Hk as [Hp1 Hk].
  constructor; [by apply IH|].
  apply Forall_fmap, Forall_forall. intros q Hq.
  exists p.1, q.1. repeat split; [done| |].
  - by apply (proj1 (Forall_forall _ _) Hk).
  - apply (proj1 (Forall_forall _ _) Hp) in Hq. unfold le_key in Hq. lia.
Qed.

Lemma keyed_filter k l :
  keyed l ->
  filter (fun f => sort_key f = Some k) (l.*2) = (filter (fun p => p.1 = k) l).*2.
Proof.
  induction 1 as [|p l Hp Hk IH]; [done|].
  rewrite fmap_cons, !filter_cons, IH.
  repeat case_decide; try done; congruence.
Qed.

(** When every key can be computed, the order is the stable numeric one. *)
Lemma sort_keyed_spec image_files keys :
  mapM sort_key image_files = Some keys ->
  sort_keyed keys image_files ≡ₚ image_files /\
  StronglySorted key_le (sort_keyed keys image_files) /\
  forall k, filter (fun f => sort_key f = Some k) (sort_keyed keys image_files)
            = filter (fun f => sort_key f = Some k) image_files.
Proof.
  intros Hkeys. pose proof (keyed_zip _ _ Hkeys) as Hz.
  assert (length keys = length image_files) as Hlen.
  { apply mapM_Some_1, Forall2_length in Hkeys. done. }
  assert (keyed (sort le_key (zip keys image_files))) as Hsz.
  { unfold keyed. by rewrite sort_perm. }
  unfold sort_keyed. split; [|split].
  - rewrite sort_perm, snd_zip; [done|lia].
  - apply keyed_sorted; [done|].
    apply sort_sorted; [apply le_key_total | apply le_key_trans].
  - intros k. rewrite keyed_filter by done.
    rewrite (sort_stable le_key (fun p : Z * string => p.1)).
    + rewrite <- keyed_filter by done. rewrite snd_zip; [done|lia].
    + intros a b Hab. unfold le_key. rewrite Hab. lia.
Qed.

(** What the key is: [re.search] returns the first maximal run of digits,
    and [int] reads it in base ten. *)
Lemma take_digits_spec s :
  exists post,
    s = PyStr.take_digits s +:+ post /\
    all_digits (PyStr.take_digits s) = true /\
    starts_with_digit post = false.
Proof.
  induction s as [|c s (post & Hs & Hd & Hp)]; simpl.
  - by exists "".
  - destruct (PyStr.is_digit c) eqn:Hc.
    + exists post. rewrite append_cons. cbn [all_digits]. rewrite Hc, Hd.
      by rewrite <- Hs.
    + exists (String c s). by rewrite <- Hc.
Qed.

Lemma re_search_digits_Some s r :
  PyStr.re_search_digits s = Some r ->
  exists pre post,
    s = pre +:+ r +:+ post /\
    no_digit pre = true /\
    r <> "" /\ all_digits r = true /\
    starts_with_digit post = false.
Proof.
  induction s as [|c s IH]; [done|].
  cbn [PyStr.re_search_digits]. destruct (PyStr.is_digit c) eqn:Hc.
  - intros [= <-].
    destruct (take_digits_spec (String c s)) as (post & Hs & Hd & Hp).
    exists "", post. repeat split; try done.
    simpl. by rewrite Hc.
  - intros H. destruct (IH H) as (pre & post & -> & Hpre & Hr & Hd & Hp).
    exists (String c pre), post. repeat split; try done.
    simpl. by rewrite Hc, Hpre.
Qed.


Lemma int_from_snoc acc r c :
  PyStr.int_from acc (r +:+ String c "")
    = (10 * PyStr.int_from acc r + PyStr.digit_value c)%Z.
Proof.
  revert acc. induction r as [|d r IH]; intros acc; simpl; [done|]. apply IH.
Qed.

Lemma int_snoc r c :
  PyStr.int (r +:+ String c "") = (10 * PyStr.int r + PyStr.digit_value c)%Z.
Proof. apply int_from_snoc. Qed.

(** *** The file name of a path and the number it carries *)

Lemma has_sep_app a b : PyStr.has_sep (a +:+ b) = PyStr.has_sep a || PyStr.has_sep b.
Proof.
  induction a as [|c a IH]; simpl; [done|].
  by rewrite IH, orb_assoc.
Qed.


Lemma basename_join dir name :
  PyStr.has_sep name = false -> PyStr.basename (dir +:+ "/" +:+ name) = name.
Proof.
  intros Hname. induction dir as [|c dir IH].
  - rewrite append_nil, append_cons, append_nil. simpl. by rewrite Hname.
  - rewrite append_cons. simpl. rewrite has_sep_app. simpl.
    by rewrite orb_true_r.
Qed.

Lemma take_digits_app r post :
  all_digits r = true -> starts_with_digit post = false ->
  PyStr.take_digits (r +:+ post) = r.
Proof.
  intros Hr Hpost. induction r as [|c r IH].
  - rewrite append_nil. destruct post as [|c post]; [done|]. simpl in *. by rewrite Hpost.
  - rewrite append_cons. simpl in *. apply andb_true_iff in Hr as [-> Hr]. by rewrite IH.
Qed.

Lemma re_search_digits_skip pre s :
  no_digit pre = true -> PyStr.re_search_digits (pre +:+ s) = PyStr.re_search_digits s.
Proof.
  induction pre as [|c pre IH]; [done|].
  rewrite append_cons. cbn [no_digit PyStr.re_search_digits]. intros H.
  apply andb_true_iff in H as [Hc H]. apply negb_true_iff in Hc. rewrite Hc. by apply IH.
Qed.

Lemma re_search_digits_run r post :
  r <> "" -> all_digits r = true -> starts_with_digit post = false ->
  PyStr.re_search_digits (r +:+ post) = Some r.
Proof.
  intros Hne Hr Hpost. destruct r as [|c r]; [done|].
  pose proof (take_digits_app _ _ Hr Hpost) as Htake.
  rewrite append_cons in *. cbn [PyStr.re_search_digits].
  simpl in Hr. apply andb_true_iff in Hr as [-> _]. by rewrite Htake.
Qed.


















End Ordering.

(** ** The frame loop *)

Section FrameLoop.
Import PySort PySortFacts.

Lemma resolution_differs_false frame h0 w0 :
  resolution_differs frame h0 w0 = false <-> height frame = h0 /\ width frame = w0.
Proof.
  unfold resolution_differs.
  rewrite orb_false_iff, !negb_false_iff, !Nat.eqb_eq. done.
Qed.

Lemma resolution_differs_true frame h0 w0 :
  resolution_differs frame h0 w0 = true <-> height frame <> h0 \/ width frame <> w0.
Proof.
  unfold resolution_differs.
  rewrite orb_true_iff, !negb_true_iff, !Nat.eqb_neq. done.
Qed.

Lemma grow_nil v : vf_released v = false -> grow v [] = v.
Proof. destruct v; unfold grow; simpl; intros ->. by rewrite app_nil_r. Qed.

Lemma grow_cons v frame frames :
  vf_released v = false ->
  grow (append_frame frame v) frames = grow v (frame :: frames).
Proof.
  unfold grow, append_frame. intros ->; simpl. by rewrite <- app_assoc.
Qed.

Lemma sorted_files_perm image_files : sorted_files image_files ≡ₚ image_files.
Proof.
  unfold sorted_files. destruct (mapM sort_key image_files) eqn:E.
  - by apply sort_keyed_spec.
  - apply sort_str_perm.
Qed.

(** A run of accepted frames is appended to the file of a writer whose sink
    opened, one [write] each, and the loop goes on with what follows. *)
Lemma write_frames_app w out h0 w0 pre frames rest :
  accepted w h0 w0 pre frames ->
  forall tr fs v,
  fs !! out = Some v -> vf_released v = false ->
  write_frames w (mkWriter out true) out h0 w0 (pre ++ rest) (mkState tr fs) =
  write_frames w (mkWriter out true) out h0 w0 rest
    (mkState (tr ++ (EWrite out <$> frames)) (<[out := grow v frames]> fs)).
Proof.
  induction 1 as [|p f pre frames [Hp Hf] _ IH]; intros tr fs v Hv Hrel.
  - simpl. by rewrite app_nil_r, grow_nil, insert_id.
  - simpl. rewrite Hp, Hf.
    unfold mbind, M_bind, writer_write, emit, update_files, modify; simpl.
    rewrite Hv. erewrite IH; [|apply lookup_insert_eq|].
    + by rewrite insert_insert_eq, grow_cons, <- app_assoc.
    + unfold append_frame. by rewrite Hrel.
Qed.

(** A writer whose sink did not open takes the same calls and writes
    nothing. *)
Lemma write_frames_app_closed w out h0 w0 pre frames rest :
  accepted w h0 w0 pre frames ->
  forall tr fs,
  write_frames w (mkWriter out false) out h0 w0 (pre ++ rest) (mkState tr fs) =
  write_frames w (mkWriter out false) out h0 w0 rest
    (mkState (tr ++ (EWrite out <$> frames)) fs).
Proof.
  induction 1 as [|p f pre frames [Hp Hf] _ IH]; intros tr fs.
  - simpl. by rewrite app_nil_r.
  - simpl. rewrite Hp, Hf.
    unfold mbind, M_bind, writer_write, emit, mret, M_ret; simpl.
    rewrite IH. by rewrite <- app_assoc.
Qed.

End FrameLoop.

(** ** [create_video] *)

Section CreateVideo.
Import PySort PySortFacts.
Local Arguments write_frames : simpl never.

(** [create_video] up to its loop: the writer is created, and its sink has
    opened or not. *)
Lemma create_video_enters_loop w image_folder out fps ext first rest first_frame opened s :
  sorted_files (glob w (search_pattern_of image_folder ext)) = first :: rest ->
  imread w first = Some first_frame ->
  writer_opens w out "mp4v" fps (width first_frame, height first_frame) = opened ->
  create_video w image_folder out fps ext s =
    (write_frames w (mkWriter out opened) out (height first_frame) (width first_frame)
       (first :: rest)
       ≫= after_loop (mkWriter out opened) out)
      (mkState
         (trace s ++ preamble image_folder out fps ext
                       (glob w (search_pattern_of image_folder ext)) first_frame)
         (apply_ops
            (stored opened out
               (mkVideo "mp4v" fps (width first_frame, height first_frame) [] false))
            (files s))).
Proof.
  intros Hsorted Hfirst Hopened.
  unfold create_video. fold (search_pattern_of image_folder ext).
  destruct (glob w (search_pattern_of image_folder ext)) as [|f0 fs0] eqn:Hglob.
  { pose proof (sorted_files_perm []) as H. rewrite Hsorted in H.
    by apply Permutation_nil_r in H. }
  unfold mbind, M_bind, print, VideoWriter, emit, update_files, mret, M_ret. simpl.
  rewrite sort_image_files_run, Hsorted, Hfirst. simpl. rewrite Hopened.
  destruct opened;
    unfold mbind, M_bind, emit, update_files, mret, M_ret; simpl;
    unfold preamble; rewrite <- !app_assoc; reflexivity.
Qed.

Ltac norm_trace :=
  unfold preamble, abort_events, abort_events_no_file;
  repeat (progress (simpl; rewrite <- ?app_assoc)); reflexivity.

Ltac run_monad :=
  unfold after_loop, mbind, M_bind, mret, M_ret, writer_release, os_remove,
    print, emit, update_files, modify, raise; simpl; unfold apply_op; simpl.

(** The loop has accepted the frames of [pre] and stands before [rest]. *)
Lemma create_video_reaches
    w image_folder out fps ext first pre rest first_frame frames opened s :
  sorted_files (glob w (search_pattern_of image_folder ext)) = (first :: pre) ++ rest ->
  accepted w (height first_frame) (width first_frame) (first :: pre) (first_frame :: frames) ->
  writer_opens w out "mp4v" fps (width first_frame, height first_frame) = opened ->
  create_video w image_folder out fps ext s =
    (write_frames w (mkWriter out opened) out (height first_frame) (width first_frame) rest
       ≫= after_loop (mkWriter out opened) out)
      (mkState
         (trace s ++ preamble image_folder out fps ext
                       (glob w (search_pattern_of image_folder ext)) first_frame
                  ++ (EWrite out <$> first_frame :: frames))
         (apply_ops
            (stored opened out
               (mkVideo "mp4v" fps (width first_frame, height first_frame)
                  (first_frame :: frames) false))
            (files s))).
Proof.
  intros Hsorted Hacc Hopened.
  assert (imread w first = Some first_frame) as Hfirst.
  { unfold accepted in Hacc. apply Forall2_cons in Hacc as [[H _] _]. done. }
  rewrite (create_video_enters_loop _ _ _ _ _ first (pre ++ rest) first_frame opened) by done.
  unfold mbind, M_bind. rewrite app_comm_cons.
  destruct opened; cbn [stored apply_ops fold_left apply_op fst snd].
  - erewrite write_frames_app; [|exact Hacc|apply lookup_insert_eq|done].
    by rewrite insert_insert_eq, <- app_assoc.
  - rewrite (write_frames_app_closed _ _ _ _ _ _ _ Hacc).
    by rewrite <- app_assoc.
Qed.

(** Every file is accepted: the writer is released and the function returns,
    with the video at the output path when the sink had opened and with
    nothing new there when it had not. *)
Lemma run_uniform w image_folder out fps ext first rest first_frame frames s :
  sorted_files (glob w (search_pattern_of image_folder ext)) = first :: rest ->
  accepted w (height first_frame) (width first_frame) (first :: rest) (first_frame :: frames) ->
  create_video w image_folder out fps ext s =
    (mkState
       (trace s ++ preamble image_folder out fps ext
                     (glob w (search_pattern_of image_folder ext)) first_frame
                ++ (EWrite out <$> first_frame :: frames)
                ++ [ERelease out; EPrint MsgComplete; EPrint (MsgSaved out)])
       (apply_ops
          (stored (writer_opens w out "mp4v" fps (width first_frame, height first_frame)) out
             (mkVideo "mp4v" fps (width first_frame, height first_frame)
                (first_frame :: frames) true))
          (files s)),
     Ok tt).
Proof.
  intros Hsorted Hacc.
  rewrite (create_video_reaches _ _ _ _ _ first rest [] first_frame frames _ s
             ltac:(by rewrite app_nil_r) Hacc eq_refl).
  unfold write_frames.
  destruct (writer_opens w out "mp4v" fps (width first_frame, height first_frame)); run_monad.
  - rewrite lookup_insert_eq, insert_insert_eq. unfold finish; simpl. norm_trace.
  - norm_trace.
Qed.

(** A frame of another size, with a file at the output path: the one the
    writer made, or the one that was there. *)
Lemma run_mismatch
    w image_folder out fps ext first pre bad post first_frame frames bad_frame s :
  sorted_files (glob w (search_pattern_of image_folder ext)) = (first :: pre) ++ bad :: post ->
  accepted w (height first_frame) (width first_frame) (first :: pre) (first_frame :: frames) ->
  imread w bad = Some bad_frame ->
  resolution_differs bad_frame (height first_frame) (width first_frame) = true ->
  writer_opens w out "mp4v" fps (width first_frame, height first_frame) = true \/
    is_Some (files s !! out) ->
  create_video w image_folder out fps ext s =
    (mkState
       (trace s ++ preamble image_folder out fps ext
                     (glob w (search_pattern_of image_folder ext)) first_frame
                ++ (EWrite out <$> first_frame :: frames)
                ++ abort_events out bad (height first_frame) (width first_frame) bad_frame)
       (delete out (files s)),
     Ok tt).
Proof.
  intros Hsorted Hacc Hbad Hdiff Hfile.
  rewrite (create_video_reaches _ _ _ _ _ first pre (bad :: post) first_frame frames _ s
             Hsorted Hacc eq_refl).
  unfold write_frames. rewrite Hbad, Hdiff.
  destruct (writer_opens w out "mp4v" fps (width first_frame, height first_frame)); run_monad.
  - rewrite lookup_insert_eq; simpl. rewrite lookup_insert_eq; simpl.
    rewrite !delete_insert_eq. norm_trace.
  - destruct Hfile as [|[v Hv]]; [done|]. rewrite Hv; simpl. norm_trace.
Qed.

(** A frame of another size, with no file at the output path: the sink did
    not open and nothing was there; [os.remove] raises. *)
Lemma run_mismatch_no_file
    w image_folder out fps ext first pre bad post first_frame frames bad_frame s :
  sorted_files (glob w (search_pattern_of image_folder ext)) = (first :: pre) ++ bad :: post ->
  accepted w (height first_frame) (width first_frame) (first :: pre) (first_frame :: frames) ->
  imread w bad = Some bad_frame ->
  resolution_differs bad_frame (height first_frame) (width first_frame) = true ->
  writer_opens w out "mp4v" fps (width first_frame, height first_frame) = false ->
  files s !! out = None ->
  create_video w image_folder out fps ext s =
    (mkState
       (trace s ++ preamble image_folder out fps ext
                     (glob w (search_pattern_of image_folder ext)) first_frame
                ++ (EWrite out <$> first_frame :: frames)
                ++ abort_events_no_file out bad (height first_frame) (width first_frame)
                     bad_frame)
       (files s),
     Raise (remove_error w out)).
Proof.
  intros Hsorted Hacc Hbad Hdiff Hclosed Hnone.
  rewrite (create_video_reaches _ _ _ _ _ first pre (bad :: post) first_frame frames false s
             Hsorted Hacc Hclosed).
  unfold write_frames. rewrite Hbad, Hdiff. run_monad.
  rewrite Hnone; simpl. norm_trace.
Qed.

(** A frame that cannot be decoded: [frame.shape] raises. *)
Lemma run_unreadable
    w image_folder out fps ext first pre bad post first_frame frames s :
  sorted_files (glob w (search_pattern_of image_folder ext)) = (first :: pre) ++ bad :: post ->
  accepted w (height first_frame) (width first_frame) (first :: pre) (first_frame :: frames) ->
  imread w bad = None ->
  create_video w image_folder out fps ext s =
    (mkState
       (trace s ++ preamble image_folder out fps ext
                     (glob w (search_pattern_of image_folder ext)) first_frame
                ++ (EWrite out <$> first_frame :: frames))
       (apply_ops
          (stored (writer_opens w out "mp4v" fps (width first_frame, height first_frame)) out
             (mkVideo "mp4v" fps (width first_frame, height first_frame)
                (first_frame :: frames) false))
          (files s)),
     Raise AttributeError).
Proof.
  intros Hsorted Hacc Hbad.
  rewrite (create_video_reaches _ _ _ _ _ first pre (bad :: post) first_frame frames _ s
             Hsorted Hacc eq_refl).
  unfold write_frames. rewrite Hbad. reflexivity.
Qed.

End CreateVideo.

(** ** Outcomes of [create_video] *)

Section Outcomes.

Lemma accepted_of_mapM w h0 w0 l frames :
  mapM (imread w) l = Some frames ->
  Forall (fun f => height f = h0 /\ width f = w0) frames ->
  accepted w h0 w0 l frames.
Proof.
  intros Hm. apply mapM_Some_1 in Hm. unfold accepted.
  induction Hm as [|p f l frames Hp _ IH]; intros Hall; [constructor|].
  apply Forall_cons in Hall as [Hf Hall].
  constructor; [|by apply IH].
  split; [done|]. by apply resolution_differs_false.
Qed.

Lemma decodable_frames w h0 w0 l :
  Forall (fun p => exists f, imread w p = Some f /\ height f = h0 /\ width f = w0) l ->
  exists frames,
    mapM (imread w) l = Some frames /\
    Forall (fun f => height f = h0 /\ width f = w0) frames.
Proof.
  induction 1 as [|p l (f & Hp & Hh & Hw) _ (frames & Hm & Hall)].
  - by exists [].
  - exists (f :: frames). split; [|by constructor].
    apply mapM_Some_2. constructor; [done|]. by apply mapM_Some_1.
Qed.

Lemma apply_ops_stored_true out v fs : apply_ops (stored true out v) fs = <[out := v]> fs.
Proof. reflexivity. Qed.

(** C1 as stated does not hold: the three files decode to frames of one
    size, but the encoder refuses the frame rate.  The writer is never asked
    whether it opened: every frame is handed to it, the success lines are
    printed and the function returns, and there is no video at the output
    path. *)
Lemma create_video_uniform_counterexample :
  glob zero_rate_world (search_pattern_of "in" "png") <> [] /\
  Forall (fun p => exists f, imread zero_rate_world p = Some f /\ height f = 2 /\ width f = 4)
         (glob zero_rate_world (search_pattern_of "in" "png")) /\
  writer_opens zero_rate_world "out.mp4" "mp4v" fps0 (4, 2) = false /\
  create_video zero_rate_world "in" "out.mp4" fps0 "png" initial =
    (mkState
       [EPrint MsgStart; EPrint (MsgInputFolder "in"); EPrint (MsgOutputVideo "out.mp4");
        EPrint (MsgFrameRate fps0); EPrint (MsgImageType "png");
        EPrint (MsgFoundSorted 3); EPrint (MsgDimensions 4 2);
        EOpen "out.mp4" "mp4v" fps0 (4, 2); EPrint MsgWriting;
        EWrite "out.mp4" (rgb 2 4 1); EWrite "out.mp4" (rgb 2 4 2);
        EWrite "out.mp4" (rgb 2 4 10);
        ERelease "out.mp4"; EPrint MsgComplete; EPrint (MsgSaved "out.mp4")]
       ∅,
     Ok tt) /\
  files (create_video zero_rate_world "in" "out.mp4" fps0 "png" initial).1 !! "out.mp4" = None.
Proof.
  split; [discriminate|]. split.
  { repeat constructor; eexists; (split; [reflexivity|split; reflexivity]). }
  split; [reflexivity|]. split; vm_compute; reflexivity.
Qed.

(** C1, as amended: for a non-empty discovered frame set whose files all
    decode to frames of one width and height, and an encoder that opens for
    that size, [create_video] returns normally; it has opened the writer with
    the (width, height) of the first frame in sorted order, written every
    frame once in sorted order, as many frames as there are files, and
    released the writer; the released video of those frames is at the output
    path. *)
Theorem create_video_uniform w image_folder out fps ext h0 w0 s :
  let image_files := glob w (search_pattern_of image_folder ext) in
  image_files <> [] ->
  Forall (fun p => exists f, imread w p = Some f /\ height f = h0 /\ width f = w0)
         image_files ->
  writer_opens w out "mp4v" fps (w0, h0) = true ->
  exists first_frame frames,
    mapM (imread w) (sorted_files image_files) = Some (first_frame :: frames) /\
    length (first_frame :: frames) = length image_files /\
    create_video w image_folder out fps ext s =
      (mkState
         (trace s ++ preamble image_folder out fps ext image_files first_frame
                  ++ (EWrite out <$> first_frame :: frames)
                  ++ [ERelease out; EPrint MsgComplete; EPrint (MsgSaved out)])
         (<[out := mkVideo "mp4v" fps (width first_frame, height first_frame)
                      (first_frame :: frames) true]> (files s)),
       Ok tt).
Proof.
  intros image_files Hne Hall Hopens.
  pose proof (sorted_files_perm image_files) as Hperm.
  rewrite <- Hperm in Hall.
  destruct (decodable_frames _ _ _ _ Hall) as (all_frames & Hm & Hsize).
  destruct (sorted_files image_files) as [|first rest] eqn:Hsorted.
  { apply Permutation_nil in Hperm. done. }
  destruct all_frames as [|first_frame frames].
  { apply mapM_Some_1 in Hm. inversion Hm. }
  pose proof Hsize as Hhead. apply Forall_cons in Hhead as [[Hh Hw] _].
  exists first_frame, frames. split; [done|]. split.
  - apply mapM_Some_1, Forall2_length in Hm.
    rewrite <- Hm. by apply Permutation_length.
  - rewrite (run_uniform _ _ _ _ _ first rest first_frame frames); [|done|].
    + by rewrite Hh, Hw, Hopens, apply_ops_stored_true.
    + apply accepted_of_mapM; [done|]. by rewrite Hh, Hw.
Qed.

(** Three frames of 4x2 pixels in a folder whose name carries digits,
    discovered as frame10, frame9b, frame2: they are written as frame2,
    frame9b, frame10. *)
Lemma create_video_uniform_witness :
  create_video numbered_world "drive_0002/data" "out.mp4" fps10 "png" initial =
    (mkState
       [EPrint MsgStart; EPrint (MsgInputFolder "drive_0002/data");
        EPrint (MsgOutputVideo "out.mp4");
        EPrint (MsgFrameRate fps10); EPrint (MsgImageType "png");
        EPrint (MsgFoundSorted 3); EPrint (MsgDimensions 4 2);
        EOpen "out.mp4" "mp4v" fps10 (4, 2); EPrint MsgWriting;
        EWrite "out.mp4" (rgb 2 4 2); EWrite "out.mp4" (rgb 2 4 9);
        EWrite "out.mp4" (rgb 2 4 10);
        ERelease "out.mp4"; EPrint MsgComplete; EPrint (MsgSaved "out.mp4")]
       (<["out.mp4" := mkVideo "mp4v" fps10 (4, 2)
                         [rgb 2 4 2; rgb 2 4 9; rgb 2 4 10] true]> ∅),
     Ok tt).
Proof.
  destruct (create_video_uniform numbered_world "drive_0002/data" "out.mp4" fps10 "png"
              2 4 initial) as (first_frame & frames & Hm & _ & Heq).
  - discriminate.
  - repeat constructor; eexists; (split; [reflexivity|split; reflexivity]).
  - reflexivity.
  - vm_compute in Hm. injection Hm as <- <-. rewrite Heq. reflexivity.
Defined.

(** C2, as amended: when a frame after the first decodes to a resolution
    other than the first frame's, every frame before it in sorted order
    decodes to the first frame's resolution, and the encoder has opened,
    [create_video] writes the frames before it and no other, prints the
    basename of the offending file with the expected and the actual
    dimensions, releases the writer, removes the file at the output path and
    returns. *)
Theorem create_video_mismatch
    w image_folder out fps ext first pre bad post first_frame frames bad_frame s :
  sorted_files (glob w (search_pattern_of image_folder ext)) = (first :: pre) ++ bad :: post ->
  mapM (imread w) (first :: pre) = Some (first_frame :: frames) ->
  Forall (fun f => height f = height first_frame /\ width f = width first_frame) frames ->
  imread w bad = Some bad_frame ->
  height bad_frame <> height first_frame \/ width bad_frame <> width first_frame ->
  writer_opens w out "mp4v" fps (width first_frame, height first_frame) = true ->
  exists s',
    create_video w image_folder out fps ext s = (s', Ok tt) /\
    trace s' =
      trace s ++ preamble image_folder out fps ext
                   (glob w (search_pattern_of image_folder ext)) first_frame
              ++ (EWrite out <$> first_frame :: frames)
              ++ [EPrint (MsgDifferentResolution (PyStr.basename bad));
                  EPrint (MsgExpectedGot (width first_frame) (height first_frame)
                                         (width bad_frame) (height bad_frame));
                  EPrint MsgAborting;
                  ERelease out;
                  ERemove out] /\
    files s' !! out = None.
Proof.
  intros Hsorted Hm Hsize Hbad Hdiff Hopens.
  eexists. split; [|split].
  - eapply run_mismatch; [exact Hsorted| |exact Hbad| |by left].
    + apply accepted_of_mapM; [done|]. by constructor.
    + by apply resolution_differs_true.
  - reflexivity.
  - apply lookup_delete_eq.
Qed.

(** Frame 3 of 5 has another size: frames 1 and 2 are written, the file is
    removed. *)
Lemma create_video_mismatch_witness :
  exists s',
    create_video mismatch_world "in" "out.mp4" fps10 "png" initial = (s', Ok tt) /\
    trace s' =
      trace initial
        ++ preamble "in" "out.mp4" fps10 "png"
             (glob mismatch_world (search_pattern_of "in" "png")) (rgb 2 4 1)
        ++ (EWrite "out.mp4" <$> [rgb 2 4 1; rgb 2 4 2])
        ++ [EPrint (MsgDifferentResolution "3.png");
            EPrint (MsgExpectedGot 4 2 4 3);
            EPrint MsgAborting;
            ERelease "out.mp4";
            ERemove "out.mp4"] /\
    files s' !! "out.mp4" = None.
Proof.
  apply (create_video_mismatch mismatch_world "in" "out.mp4" fps10 "png"
           "in/1.png" ["in/2.png"] "in/3.png" ["in/4.png"; "in/5.png"]
           (rgb 2 4 1) [rgb 2 4 2] (rgb 3 4 3) initial).
  - reflexivity.
  - reflexivity.
  - repeat constructor.
  - reflexivity.
  - left. simpl. lia.
  - reflexivity.
Defined.

End Outcomes.

(** ** When [create_video] returns *)

Section Returns.

Lemma create_video_no_frames w image_folder out fps ext s :
  glob w (search_pattern_of image_folder ext) = [] ->
  create_video w image_folder out fps ext s =
    (mkState
       (trace s ++ [EPrint MsgStart; EPrint (MsgInputFolder image_folder);
                    EPrint (MsgOutputVideo out); EPrint (MsgFrameRate fps);
                    EPrint (MsgImageType ext); EPrint (MsgNoImages ext image_folder)])
       (files s),
     Ok tt).
Proof.
  intros H. unfold create_video. fold (search_pattern_of image_folder ext). rewrite H.
  unfold mbind, M_bind, print, emit; simpl. by rewrite <- !app_assoc.
Qed.

Lemma create_video_first_unreadable w image_folder out fps ext first rest s :
  sorted_files (glob w (search_pattern_of image_folder ext)) = first :: rest ->
  imread w first = None ->
  create_video w image_folder out fps ext s =
    (mkState
       (trace s ++ [EPrint MsgStart; EPrint (MsgInputFolder image_folder);
                    EPrint (MsgOutputVideo out); EPrint (MsgFrameRate fps);
                    EPrint (MsgImageType ext)]
                ++ sort_messages (glob w (search_pattern_of image_folder ext))
                ++ [EPrint (MsgFirstUnreadable first)])
       (files s),
     Ok tt).
Proof.
  intros Hsorted Hfirst.
  unfold create_video. fold (search_pattern_of image_folder ext).
  destruct (glob w (search_pattern_of image_folder ext)) as [|f0 fs0] eqn:Hglob.
  { pose proof (sorted_files_perm []) as H. rewrite Hsorted in H.
    by apply Permutation_nil_r in H. }
  unfold mbind, M_bind, print, emit, mret, M_ret. simpl.
  rewrite sort_image_files_run, Hsorted, Hfirst. simpl.
  by rewrite <- !app_assoc.
Qed.

End Returns.

(** ** Frames that cannot be decoded *)

Section Unreadable.

(** C2 as stated does not hold, in two ways.  In the first folder the third
    frame decodes to another resolution than the first, but the second cannot
    be decoded: the loop raises [AttributeError] at the second frame, nothing
    is reported about the third, the writer is not released and the file
    stays.  In the second folder the third frame of five has another
    resolution and the encoder has refused the frame rate: the mismatch is
    printed and the writer released, but there is no file to delete, and
    [os.remove] raises [FileNotFoundError]. *)
Lemma create_video_mismatch_counterexample :
  sorted_files (glob unreadable_world (search_pattern_of "in" "png"))
    = ["in/1.png"; "in/2.png"; "in/3.png"] /\
  imread unreadable_world "in/1.png" = Some (rgb 2 4 1) /\
  imread unreadable_world "in/3.png" = Some (rgb 3 4 3) /\
  resolution_differs (rgb 3 4 3) (height (rgb 2 4 1)) (width (rgb 2 4 1)) = true /\
  create_video unreadable_world "in" "out.mp4" fps10 "png" initial =
    (mkState
       [EPrint MsgStart; EPrint (MsgInputFolder "in"); EPrint (MsgOutputVideo "out.mp4");
        EPrint (MsgFrameRate fps10); EPrint (MsgImageType "png");
        EPrint (MsgFoundSorted 3); EPrint (MsgDimensions 4 2);
        EOpen "out.mp4" "mp4v" fps10 (4, 2); EPrint MsgWriting;
        EWrite "out.mp4" (rgb 2 4 1)]
       (<["out.mp4" := mkVideo "mp4v" fps10 (4, 2) [rgb 2 4 1] false]> ∅),
     Raise AttributeError) /\
  sorted_files (glob zero_rate_mismatch_world (search_pattern_of "in" "png"))
    = ["in/1.png"; "in/2.png"; "in/3.png"; "in/4.png"; "in/5.png"] /\
  mapM (imread zero_rate_mismatch_world) ["in/1.png"; "in/2.png"; "in/3.png"]
    = Some [rgb 2 4 1; rgb 2 4 2; rgb 3 4 3] /\
  writer_opens zero_rate_mismatch_world "out.mp4" "mp4v" fps0 (4, 2) = false /\
  create_video zero_rate_mismatch_world "in" "out.mp4" fps0 "png" initial =
    (mkState
       [EPrint MsgStart; EPrint (MsgInputFolder "in"); EPrint (MsgOutputVideo "out.mp4");
        EPrint (MsgFrameRate fps0); EPrint (MsgImageType "png");
        EPrint (MsgFoundSorted 5); EPrint (MsgDimensions 4 2);
        EOpen "out.mp4" "mp4v" fps0 (4, 2); EPrint MsgWriting;
        EWrite "out.mp4" (rgb 2 4 1); EWrite "out.mp4" (rgb 2 4 2);
        EPrint (MsgDifferentResolution "3.png"); EPrint (MsgExpectedGot 4 2 4 3);
        EPrint MsgAborting; ERelease "out.mp4"]
       ∅,
     Raise FileNotFoundError).
Proof. repeat split; vm_compute; reflexivity. Qed.

(** C3, at the failing input: the first frame decodes and the second does
    not; [create_video] does not report an unreadable frame, it ends with an
    uncaught [AttributeError] after the first frame was written. *)
Theorem create_video_unreadable_frame_raises :
  imread broken_world "in/1.png" = Some (rgb 2 4 1) /\
  imread broken_world "in/2.png" = None /\
  create_video broken_world "in" "out.mp4" fps10 "png" initial =
    (mkState
       [EPrint MsgStart; EPrint (MsgInputFolder "in"); EPrint (MsgOutputVideo "out.mp4");
        EPrint (MsgFrameRate fps10); EPrint (MsgImageType "png");
        EPrint (MsgFoundSorted 2); EPrint (MsgDimensions 4 2);
        EOpen "out.mp4" "mp4v" fps10 (4, 2); EPrint MsgWriting;
        EWrite "out.mp4" (rgb 2 4 1)]
       (<["out.mp4" := mkVideo "mp4v" fps10 (4, 2) [rgb 2 4 1] false]> ∅),
     Raise AttributeError).
Proof.
  split; [reflexivity|]. split; [reflexivity|].
  rewrite (run_unreadable broken_world "in" "out.mp4" fps10 "png"
             "in/1.png" [] "in/2.png" [] (rgb 2 4 1) []); try reflexivity.
  repeat constructor.
Qed.

(** C4, at the failing input: when the failure after the creation of the
    writer is a frame that cannot be decoded, the file at the output path is
    neither released nor removed; it is left with the frames written so far. *)
Theorem create_video_leaves_partial_file :
  let r := create_video broken_world "in" "out.mp4" fps10 "png" initial in
  r.2 = Raise AttributeError /\
  files r.1 !! "out.mp4" = Some (mkVideo "mp4v" fps10 (4, 2) [rgb 2 4 1] false) /\
  Forall (fun e => e <> ERelease "out.mp4" /\ e <> ERemove "out.mp4") (trace r.1).
Proof.
  vm_compute. split; [reflexivity|]. split; [reflexivity|].
  repeat constructor; discriminate.
Qed.

End Unreadable.

(** ** Calls only add to the trace *)

Section Traces.

















End Traces.

(** ** Layers are not compared *)

Section Layers.
Local Arguments write_frames : simpl never.




End Layers.

(** ** Drive names and output paths *)

Section DriveNames.
Import PyStr.

Lemma has_sep_basename p : has_sep (basename p) = false.
Proof.
  induction p as [|c p IH]; simpl; [done|].
  destruct (has_sep p) eqn:Hp; [done|].
  destruct (is_sep c) eqn:Hc; [done|].
  simpl. by rewrite Hc, Hp.
Qed.

Lemma replace_from_0 old new c s :
  replace_from old new 0 (String c s) =
    if String.prefix old (String c s)
    then new +:+ replace_from old new (String.length old - 1) s
    else String c (replace_from old new 0 s).
Proof. reflexivity. Qed.

Lemma prefix_cons a s1 b s2 :
  String.prefix (String a s1) (String b s2) =
    if ascii_dec a b then String.prefix s1 s2 else false.
Proof. reflexivity. Qed.

Lemma prefix_nil_r a s1 : String.prefix (String a s1) "" = false.
Proof. reflexivity. Qed.

Lemma prefix_nil_l s : String.prefix "" s = true.
Proof. by destruct s. Qed.

Ltac prefix_cases :=
  repeat (rewrite ?append_cons, ?append_nil, ?prefix_cons, ?prefix_nil_r, ?prefix_nil_l;
          match goal with
          | |- context [ascii_dec ?a ?b] =>
              let E := fresh "E" in destruct (ascii_dec a b) as [E|E]; try discriminate E
          end);
  try reflexivity.

(** No occurrence of [_sync] can begin inside the stem and end inside the
    suffix: the suffix has only one underscore. *)
Lemma prefix_sync_app c t :
  String.prefix "_sync" (String c (t +:+ "_sync")) = String.prefix "_sync" (String c t).
Proof.
  destruct t as [|c1 [|c2 [|c3 [|c4 t]]]]; prefix_cases.
Qed.

Lemma replace_sync_suffix stem :
  contains "_sync" stem = false ->
  replace (stem +:+ "_sync") "_sync" "" = stem.
Proof.
  unfold replace. induction stem as [|c t IH]; [reflexivity|].
  intros H. rewrite append_cons, replace_from_0, prefix_sync_app.
  change (contains "_sync" (String c t))
    with (String.prefix "_sync" (String c t) || contains "_sync" t) in H.
  apply orb_false_iff in H as [-> H].
  by rewrite IH.
Qed.

Lemma length_append a b : String.length (a +:+ b) = String.length a + String.length b.
Proof. induction a as [|c a IH]; simpl; [done|]. by rewrite IH. Qed.

Lemma strip_suffix_cons suffix c s :
  strip_suffix suffix (String c s) =
    if String.eqb (String c s) suffix then "" else String c (strip_suffix suffix s).
Proof. reflexivity. Qed.

Lemma strip_suffix_app suffix stem :
  suffix <> "" -> strip_suffix suffix (stem +:+ suffix) = stem.
Proof.
  intros Hne. induction stem as [|c t IH].
  - rewrite append_nil. destruct suffix as [|c s]; [done|].
    by rewrite strip_suffix_cons, String.eqb_refl.
  - rewrite append_cons, strip_suffix_cons.
    destruct (String.eqb_spec (String c (t +:+ suffix)) suffix) as [E|_].
    + apply (f_equal String.length) in E. simpl in E.
      rewrite length_append in E. lia.
    + by rewrite IH.
Qed.

Lemma startswith_sep_app a b :
  has_sep a = false -> startswith_sep b = false -> startswith_sep (a +:+ b) = false.
Proof.
  destruct a as [|c a]; simpl; [done|].
  intros H _. by apply orb_false_iff in H as [-> _].
Qed.

(** C9 as stated does not hold: a drive directory whose basename contains
    [_sync] before its trailing [_sync] loses every occurrence. *)
Lemma drive_name_counterexample :
  let drive_path := "kitti/2011_09_26/cam_sync_0002_sync" in
  basename drive_path = "cam_sync_0002_sync" /\
  strip_suffix "_sync" (basename drive_path) = "cam_sync_0002" /\
  drive_name_of drive_path = "cam_0002" /\
  drive_name_of drive_path <> strip_suffix "_sync" (basename drive_path) /\
  output_video_path_of "videos" drive_path = "videos/cam_0002.mp4".
Proof. repeat split; try reflexivity. discriminate. Qed.

(** C9, as amended: for a drive directory whose basename is a stem followed
    by [_sync], where [_sync] does not occur in the stem, the drive name is
    the stem, that is the basename with its trailing [_sync] removed and
    nothing else changed, and the output path is [os.path.join(output_dir,
    drive_name + ".mp4")]: the output directory, a ['/'] unless the directory
    is empty or ends with one, the drive name and [.mp4]. *)
Theorem drive_name_strips_sync output_dir drive_path stem :
  basename drive_path = stem +:+ "_sync" ->
  contains "_sync" stem = false ->
  drive_name_of drive_path = stem /\
  drive_name_of drive_path = strip_suffix "_sync" (basename drive_path) /\
  output_video_path_of output_dir drive_path
    = output_dir +:+ separator_after output_dir +:+ drive_name_of drive_path +:+ ".mp4".
Proof.
  intros Hbase Hstem.
  assert (drive_name_of drive_path = stem) as Hname.
  { unfold drive_name_of. rewrite Hbase. by apply replace_sync_suffix. }
  split; [done|]. split.
  { rewrite Hname, Hbase. by rewrite strip_suffix_app. }
  unfold output_video_path_of, path_join, join_step, separator_after; simpl.
  rewrite Hname.
  assert (has_sep stem = false) as Hsep.
  { pose proof (has_sep_basename drive_path) as H.
    rewrite Hbase, has_sep_app in H. by apply orb_false_iff in H as [H _]. }
  rewrite (startswith_sep_app stem ".mp4") by done.
  by destruct ((String.length output_dir =? 0)%nat || endswith_sep output_dir).
Qed.

(** The drive [2011_09_26_drive_0002_sync]. *)
Lemma drive_name_strips_sync_witness :
  drive_name_of drive2 = "2011_09_26_drive_0002" /\
  drive_name_of drive2 = strip_suffix "_sync" (basename drive2) /\
  output_video_path_of "videos" drive2 = "videos/2011_09_26_drive_0002.mp4".
Proof.
  destruct (drive_name_strips_sync "videos" drive2 "2011_09_26_drive_0002")
    as (H1 & H2 & H3); [reflexivity|reflexivity|].
  split; [exact H1|]. split; [exact H2|]. rewrite H3. reflexivity.
Defined.

End DriveNames.

(** ** The batch driver *)

Section Driver.

(** The loop over the drives goes on after a drive whose body returns. *)
Lemma for_each_continues {A} (body : A -> M unit) x l s s' :
  body x s = (s', Ok tt) -> for_each body (x :: l) s = for_each body l s'.
Proof. intros H. simpl. unfold mbind, M_bind. by rewrite H. Qed.

(** It stops at a drive whose body raises. *)
Lemma for_each_aborts {A} (body : A -> M unit) x l s s' e :
  body x s = (s', Raise e) -> for_each body (x :: l) s = (s', Raise e).
Proof. intros H. simpl. unfold mbind, M_bind. by rewrite H. Qed.

(** A drive without its image folder is skipped, and the body returns. *)
Lemma process_drive_missing_folder w output_dir fps drive_path s :
  isdir w (rgb_image_folder_of drive_path) = false ->
  process_drive w output_dir fps drive_path s =
    (mkState (trace s ++ [EPrint (MsgProcessing (drive_name_of drive_path));
                          EPrint (MsgSkipping (drive_name_of drive_path));
                          EPrint (MsgExpectedAt (rgb_image_folder_of drive_path))])
             (files s),
     Ok tt).
Proof.
  intros H. unfold process_drive. rewrite H.
  unfold mbind, M_bind, print, emit; simpl. by rewrite <- !app_assoc.
Qed.

(** [process_all_drives] with at least one drive: the output directory is
    made, or [os.makedirs] raises; then the loop runs, and the closing line
    is printed when the loop returns. *)
Lemma process_all_drives_unfold w kitti_test_root output_dir fps s :
  drive_paths_of w kitti_test_root <> [] ->
  process_all_drives w kitti_test_root output_dir fps s =
    match makedirs w output_dir with
    | Some e =>
        (mkState
           (trace s ++ batch_refused kitti_test_root output_dir
                         (length (drive_paths_of w kitti_test_root)))
           (files s),
         Raise e)
    | None =>
        match for_each (process_drive w output_dir fps) (drive_paths_of w kitti_test_root)
                (mkState
                   (trace s ++ batch_opening kitti_test_root output_dir
                                 (length (drive_paths_of w kitti_test_root)))
                   (files s)) with
        | (s1, Ok _) => (mkState (trace s1 ++ [EPrint MsgAllProcessed]) (files s1), Ok tt)
        | (s1, Raise e) => (s1, Raise e)
        end
    end.
Proof.
  intros Hne. unfold process_all_drives. fold (drive_paths_of w kitti_test_root).
  destruct (drive_paths_of w kitti_test_root) as [|d ds] eqn:Hd; [done|].
  unfold mbind at 1 2 3 4 5 6. unfold M_bind at 1 2 3 4 5 6.
  unfold print, os_makedirs, emit, batch_refused, batch_opening.
  unfold mbind at 1. unfold M_bind at 1. cbn [fst snd trace files].
  destruct (makedirs w output_dir) as [e|]; unfold raise, mret, M_ret; cbn [fst snd trace files].
  - by rewrite <- !app_assoc.
  - rewrite <- !app_assoc. cbn [app].
    by destruct (for_each _ _ _) as [s1 [[]|e]].
Qed.


(** The drive 0002 has its image folder and the drive 0005 has not: one
    video is written, one drive is skipped, and the batch reaches its end. *)
Example process_all_drives_mixed :
  let r := process_all_drives mixed_batch "kitti" "videos" fps10 initial in
  r.2 = Ok tt /\
  files r.1 = {["videos/2011_09_26_drive_0002.mp4" :=
                  mkVideo "mp4v" fps10 (4, 2) [rgb 2 4 0] true]} /\
  tally mixed_batch "kitti" "videos" fps10 = (2, 1, 1, 0).
Proof. vm_compute. repeat split. Qed.

(** C7, at the failing input: the second frame of the first drive cannot be
    decoded; the [AttributeError] raised in [create_video] leaves
    [process_all_drives], and the second drive is never processed. *)
Theorem process_all_drives_aborts_on_unreadable_frame :
  drive_paths_of failing_batch "kitti" = [drive2; drive5] /\
  isdir failing_batch (rgb_image_folder_of drive5) = true /\
  process_all_drives failing_batch "kitti" "videos" fps10 initial =
    (mkState
       [EPrint MsgDriveStart; EPrint (MsgSearching "kitti");
        EPrint (MsgFoundDrives 2); EMakedirs "videos"; EPrint (MsgSavedIn "videos");
        EPrint (MsgProcessing "2011_09_26_drive_0002");
        EPrint MsgStart; EPrint (MsgInputFolder data2);
        EPrint (MsgOutputVideo "videos/2011_09_26_drive_0002.mp4");
        EPrint (MsgFrameRate fps10); EPrint (MsgImageType "png");
        EPrint (MsgFoundSorted 2); EPrint (MsgDimensions 4 2);
        EOpen "videos/2011_09_26_drive_0002.mp4" "mp4v" fps10 (4, 2);
        EPrint MsgWriting;
        EWrite "videos/2011_09_26_drive_0002.mp4" (rgb 2 4 0)]
       {["videos/2011_09_26_drive_0002.mp4" :=
           mkVideo "mp4v" fps10 (4, 2) [rgb 2 4 0] false]},
     Raise AttributeError).
Proof. vm_compute. repeat split. Qed.




End Driver.

(** * Further properties of the scripts *)

(** ** Every run of [create_video] *)

Section Cases.

(** The loop accepts a run of frames and then runs out of files, or meets a
    frame that cannot be decoded, or one of another size. *)
Lemma loop_cases w h0 w0 l :
  exists pre frames,
    accepted w h0 w0 pre frames /\
    (l = pre \/
     exists bad post, l = pre ++ bad :: post /\
       (imread w bad = None \/
        exists bad_frame, imread w bad = Some bad_frame /\
                          resolution_differs bad_frame h0 w0 = true)).
Proof.
  induction l as [|p l (pre & frames & Hacc & Hl)].
  - exists [], []. split; [constructor|by left].
  - destruct (imread w p) as [f|] eqn:Hp.
    + destruct (resolution_differs f h0 w0) eqn:Hf.
      * exists [], []. split; [constructor|]. right. exists p, l. split; [done|].
        right. by exists f.
      * exists (p :: pre), (f :: frames). split; [by constructor|].
        destruct Hl as [->|(bad & post & -> & Hbad)]; [by left|].
        right. by exists bad, post.
    + exists [], []. split; [constructor|]. right. exists p, l. split; [done|]. by left.
Qed.

(** Every call of [create_video] goes one of the ways of [Run].  The call
    ends in an exception other than [AttributeError] only from a state with
    no file at the output path; and when the sink opens, the call goes the
    same way from every state. *)
Lemma create_video_run w image_folder out fps ext s :
  exists t ops r,
    Run w image_folder out fps ext t ops r /\
    create_video w image_folder out fps ext s = (after t ops s, r) /\
    (forall e, r = Raise e -> e <> AttributeError -> files s !! out = None) /\
    ((forall size, writer_opens w out "mp4v" fps size = true) ->
     forall s', create_video w image_folder out fps ext s' = (after t ops s', r)).
Proof.
  destruct (glob w (search_pattern_of image_folder ext)) as [|f0 fs0] eqn:Hglob.
  { eexists _, _, _. split; [by apply RunNoFrames|].
    split; [by rewrite create_video_no_frames|]. split; [done|].
    intros _ s'. by rewrite create_video_no_frames. }
  destruct (sorted_files (glob w (search_pattern_of image_folder ext)))
    as [|first rest] eqn:Hsorted.
  { pose proof (sorted_files_perm (glob w (search_pattern_of image_folder ext))) as H.
    rewrite Hsorted, Hglob in H. by apply Permutation_nil in H. }
  destruct (imread w first) as [first_frame|] eqn:Hfirst.
  2:{ eexists _, _, _. split; [by eapply RunFirstUnreadable|].
      split; [by erewrite create_video_first_unreadable|]. split; [done|].
      intros _ s'. by erewrite create_video_first_unreadable. }
  destruct (loop_cases w (height first_frame) (width first_frame) rest)
    as (pre & frames & Hacc & Hrest).
  assert (accepted w (height first_frame) (width first_frame)
            (first :: pre) (first_frame :: frames)) as Hacc'.
  { constructor; [|done]. split; [done|]. by apply resolution_differs_false. }
  destruct Hrest as [->|(bad & post & -> & [Hbad|(bad_frame & Hbad & Hdiff)])].
  - eexists _, _, _. split; [by eapply RunComplete|].
    split; [by erewrite run_uniform|]. split; [done|].
    intros _ s'. by erewrite run_uniform.
  - eexists _, _, _. split; [by eapply RunCrash|].
    split; [by erewrite run_unreadable|].
    split; [intros e [= <-] H; by destruct H|].
    intros _ s'. by erewrite run_unreadable.
  - destruct (writer_opens w out "mp4v" fps (width first_frame, height first_frame))
      eqn:Hopens.
    { eexists _, _, _. split; [by eapply RunMismatch|].
      split; [erewrite run_mismatch; try done; by left|]. split; [done|].
      intros _ s'. erewrite run_mismatch; try done. by left. }
    destruct (files s !! out) as [v|] eqn:Hfile.
    { eexists _, _, _. split; [by eapply RunMismatch|].
      split; [erewrite run_mismatch; try done; right; by eexists|]. split; [done|].
      intros Hall. by rewrite Hall in Hopens. }
    eexists _, _, _. split; [by eapply RunMismatchNoFile|].
    split; [by erewrite run_mismatch_no_file|]. split; [done|].
    intros Hall. by rewrite Hall in Hopens.
Qed.

End Cases.

(** ** File operations *)

Section FileOps.

Lemma apply_ops_app ops1 ops2 fs :
  apply_ops (ops1 ++ ops2) fs = apply_ops ops2 (apply_ops ops1 fs).
Proof. apply fold_left_app. Qed.

Lemma apply_op_lookup fs op path :
  apply_op fs op !! path = if decide (op.1 = path) then op.2 else fs !! path.
Proof.
  unfold apply_op. destruct op as [k [v|]]; simpl; case_decide; subst.
  - apply lookup_insert_eq.
  - by apply lookup_insert_ne.
  - apply lookup_delete_eq.
  - by apply lookup_delete_ne.
Qed.

Lemma apply_ops_lookup ops : forall fs path,
  apply_ops ops fs !! path = default (fs !! path) (last_op path ops).
Proof.
  induction ops as [|op ops IH]; intros fs path; [done|].
  change (apply_ops (op :: ops) fs) with (apply_ops ops (apply_op fs op)).
  rewrite IH, apply_op_lookup. simpl.
  destruct (last_op path ops); [done|]. by case_decide.
Qed.

(** Doing the same operations again changes nothing. *)
Lemma apply_ops_idemp ops fs : apply_ops ops (apply_ops ops fs) = apply_ops ops fs.
Proof.
  apply map_eq. intros path. rewrite !apply_ops_lookup.
  by destruct (last_op path ops).
Qed.

Lemma last_op_None path ops :
  Forall (fun op => op.1 <> path) ops -> last_op path ops = None.
Proof.
  induction 1 as [|op ops Hop _ IH]; simpl; [done|].
  rewrite IH. by case_decide.
Qed.

Lemma last_op_app path ops1 ops2 :
  last_op path (ops1 ++ ops2) =
    match last_op path ops2 with
    | Some x => Some x
    | None => last_op path ops1
    end.
Proof.
  induction ops1 as [|op ops1 IH]; simpl.
  - by destruct (last_op path ops2).
  - rewrite IH. by destruct (last_op path ops2).
Qed.

Lemma last_op_Some path ops ov :
  last_op path ops = Some ov -> (path, ov) ∈ ops.
Proof.
  induction ops as [|op ops IH]; simpl; [done|].
  destruct (last_op path ops) as [x|].
  - intros [= ->]. apply list_elem_of_further. by apply IH.
  - case_decide; [|done]. intros [= <-]. subst. destruct op. apply list_elem_of_here.
Qed.

End FileOps.

Section RunFacts.
Context (w : World) (image_folder out : string) (fps : float) (ext : string).

Lemma accepted_sized h0 w0 l frames :
  accepted w h0 w0 l frames ->
  Forall (fun f => (width f, height f) = (w0, h0)) frames.
Proof.
  induction 1 as [|p f l frames [_ Hf] _ IH]; constructor; [|done].
  apply resolution_differs_false in Hf as [-> ->]. done.
Qed.

Lemma accepted_decoded h0 w0 l frames :
  accepted w h0 w0 l frames -> mapM (imread w) l = Some frames.
Proof.
  intros H. apply mapM_Some_2. eapply Forall2_impl; [exact H|]. by intros p f [? _].
Qed.

Lemma stored_path opened path v : Forall (fun op => op.1 = path) (stored opened path v).
Proof. destruct opened; repeat constructor. Qed.

Lemma stored_elem opened path v op : op ∈ stored opened path v -> op = (path, Some v).
Proof.
  destruct opened; simpl; intros H.
  - by apply list_elem_of_singleton in H.
  - by apply elem_of_nil in H.
Qed.

(** A run touches no path but the output path. *)
Lemma Run_path t ops r :
  Run w image_folder out fps ext t ops r -> Forall (fun op => op.1 = out) ops.
Proof. destruct 1; try apply stored_path; repeat constructor. Qed.

(** What a run stores is an [mp4v] video at the given frame rate, not empty,
    all of whose frames have the declared size; it is released exactly when
    the run returns. *)
Lemma Run_stored t ops r v :
  Run w image_folder out fps ext t ops r ->
  (out, Some v) ∈ ops ->
  vf_fourcc v = "mp4v" /\ vf_fps v = fps /\ vf_frames v <> [] /\ sized v /\
  (vf_released v = true <-> r = Ok tt).
Proof.
  destruct 1 as [| | ? ? ? ? _ Hacc | | | ? ? ? ? ? ? _ Hacc _]; intros Hin.
  - by apply elem_of_nil in Hin.
  - by apply elem_of_nil in Hin.
  - apply stored_elem in Hin. injection Hin as ->.
    repeat split; try done. by apply (accepted_sized _ _ _ _ Hacc).
  - by apply list_elem_of_singleton in Hin.
  - by apply elem_of_nil in Hin.
  - apply stored_elem in Hin. injection Hin as ->.
    repeat split; try done. by apply (accepted_sized _ _ _ _ Hacc).
Qed.

(** A run raises at a file after the first, met after the files before it
    were decoded and accepted: [AttributeError] when that file cannot be
    decoded, the exception of [os.remove] when it has another size and the
    sink had not opened. *)
Lemma Run_raise t ops r e :
  Run w image_folder out fps ext t ops r -> r = Raise e ->
  exists first pre bad post first_frame frames,
    sorted_files (glob w (search_pattern_of image_folder ext)) = (first :: pre) ++ bad :: post /\
    mapM (imread w) (first :: pre) = Some (first_frame :: frames) /\
    ((e = AttributeError /\ imread w bad = None) \/
     (e = remove_error w out /\
      (exists bad_frame,
         imread w bad = Some bad_frame /\
         resolution_differs bad_frame (height first_frame) (width first_frame) = true) /\
      writer_opens w out "mp4v" fps (width first_frame, height first_frame) = false)).
Proof.
  destruct 1 as [| | | |first pre bad post ff frames bf Hs Hacc Hbad Hdiff Hclosed
                 |first pre bad post ff frames Hs Hacc Hbad]; intros [= <-].
  - exists first, pre, bad, post, ff, frames.
    split; [done|]. split; [by eapply accepted_decoded|].
    right. split; [done|]. split; [by exists bf|done].
  - exists first, pre, bad, post, ff, frames.
    split; [done|]. split; [by eapply accepted_decoded|]. by left.
Qed.

End RunFacts.

(** ** Edge cases, exceptions and files of [create_video] *)

Section CreateVideoExtras.

(** X1: when no file of the folder matches the extension, [create_video]
    prints that no image was found and returns: no writer is opened and the
    file store is left as it was, whatever was at the output path. *)
Theorem create_video_nothing_found w image_folder out fps ext s :
  glob w (search_pattern_of image_folder ext) = [] ->
  (create_video w image_folder out fps ext s).2 = Ok tt /\
  files (create_video w image_folder out fps ext s).1 = files s /\
  trace (create_video w image_folder out fps ext s).1 =
    trace s ++ banner image_folder out fps ext ++ [EPrint (MsgNoImages ext image_folder)].
Proof.
  intros H. by rewrite create_video_no_frames.
Qed.

Lemma create_video_nothing_found_witness :
  (create_video empty_world "in" "out.mp4" fps10 "png" initial).2 = Ok tt /\
  files (create_video empty_world "in" "out.mp4" fps10 "png" initial).1 = files initial /\
  trace (create_video empty_world "in" "out.mp4" fps10 "png" initial).1 =
    trace initial ++ banner "in" "out.mp4" fps10 "png" ++ [EPrint (MsgNoImages "png" "in")].
Proof.
  apply (create_video_nothing_found empty_world "in" "out.mp4" fps10 "png" initial).
  reflexivity.
Defined.

(** X2: when the first file in sorted order cannot be decoded,
    [create_video] prints its path and returns before any writer is
    created: the file store is left as it was. *)
Theorem create_video_first_frame_unreadable w image_folder out fps ext first rest s :
  sorted_files (glob w (search_pattern_of image_folder ext)) = first :: rest ->
  imread w first = None ->
  (create_video w image_folder out fps ext s).2 = Ok tt /\
  files (create_video w image_folder out fps ext s).1 = files s /\
  trace (create_video w image_folder out fps ext s).1 =
    trace s ++ banner image_folder out fps ext
            ++ sort_messages (glob w (search_pattern_of image_folder ext))
            ++ [EPrint (MsgFirstUnreadable first)].
Proof.
  intros Hsorted Hfirst. by erewrite create_video_first_unreadable.
Qed.

Lemma create_video_first_frame_unreadable_witness :
  (create_video undecodable_world "in" "out.mp4" fps10 "png" initial).2 = Ok tt /\
  files (create_video undecodable_world "in" "out.mp4" fps10 "png" initial).1 = files initial /\
  trace (create_video undecodable_world "in" "out.mp4" fps10 "png" initial).1 =
    trace initial ++ banner "in" "out.mp4" fps10 "png"
      ++ sort_messages (glob undecodable_world (search_pattern_of "in" "png"))
      ++ [EPrint (MsgFirstUnreadable "in/1.png")].
Proof.
  apply (create_video_first_frame_unreadable undecodable_world "in" "out.mp4" fps10 "png"
           "in/1.png" [] initial); reflexivity.
Defined.

(** X3: an exception leaves [create_video] only at a file after the first
    in sorted order, when the files before it were decoded.  It is
    [AttributeError] when that file cannot be decoded.  It is the exception
    of [os.remove], [FileNotFoundError] unless the output path is a
    directory, when that file decodes to another size than the first frame,
    the sink had not opened and no file was at the output path. *)
Theorem create_video_exceptions w image_folder out fps ext s e :
  (create_video w image_folder out fps ext s).2 = Raise e ->
  exists first pre bad post first_frame frames,
    sorted_files (glob w (search_pattern_of image_folder ext)) = (first :: pre) ++ bad :: post /\
    mapM (imread w) (first :: pre) = Some (first_frame :: frames) /\
    ((e = AttributeError /\ imread w bad = None) \/
     (e = remove_error w out /\
      (exists bad_frame,
         imread w bad = Some bad_frame /\
         resolution_differs bad_frame (height first_frame) (width first_frame) = true) /\
      writer_opens w out "mp4v" fps (width first_frame, height first_frame) = false /\
      files s !! out = None)).
Proof.
  destruct (create_video_run w image_folder out fps ext s)
    as (t & ops & r & Hrun & Heq & Hnone & _).
  rewrite Heq. simpl. intros ->.
  destruct (Run_raise _ _ _ _ _ _ _ _ e Hrun eq_refl)
    as (first & pre & bad & post & ff & frames & Hs & Hm & [H|(-> & Hbad & Hclosed)]).
  - exists first, pre, bad, post, ff, frames. repeat split; try done. by left.
  - exists first, pre, bad, post, ff, frames. repeat split; try done.
    right. repeat split; try done. apply (Hnone _ eq_refl).
    unfold remove_error. by destruct (isdir w out).
Qed.

(** The encoder refuses the frame rate and the third frame has another
    size. *)
Lemma create_video_exceptions_witness :
  exists first pre bad post first_frame frames,
    sorted_files (glob zero_rate_mismatch_world (search_pattern_of "in" "png"))
      = (first :: pre) ++ bad :: post /\
    mapM (imread zero_rate_mismatch_world) (first :: pre) = Some (first_frame :: frames) /\
    ((FileNotFoundError = AttributeError /\ imread zero_rate_mismatch_world bad = None) \/
     (FileNotFoundError = remove_error zero_rate_mismatch_world "out.mp4" /\
      (exists bad_frame,
         imread zero_rate_mismatch_world bad = Some bad_frame /\
         resolution_differs bad_frame (height first_frame) (width first_frame) = true) /\
      writer_opens zero_rate_mismatch_world "out.mp4" "mp4v" fps0
        (width first_frame, height first_frame) = false /\
      files initial !! "out.mp4" = None)).
Proof.
  apply (create_video_exceptions zero_rate_mismatch_world "in" "out.mp4" fps0 "png" initial).
  vm_compute. reflexivity.
Defined.

(** X4: [create_video] leaves every file other than the one at the output
    path as it was, however it ends. *)
Theorem create_video_other_files_untouched w image_folder out fps ext s path :
  path <> out ->
  files (create_video w image_folder out fps ext s).1 !! path = files s !! path.
Proof.
  intros Hne.
  destruct (create_video_run w image_folder out fps ext s) as (t & ops & r & Hrun & Heq & _).
  rewrite Heq. simpl. rewrite apply_ops_lookup, last_op_None; [done|].
  eapply Forall_impl; [by eapply Run_path|]. simpl. congruence.
Qed.

Lemma create_video_other_files_untouched_witness :
  files (create_video uniform_world "in" "out.mp4" fps10 "png" initial).1 !! "other.mp4"
    = files initial !! "other.mp4".
Proof.
  apply (create_video_other_files_untouched uniform_world "in" "out.mp4" fps10 "png"
           initial "other.mp4").
  discriminate.
Defined.

(** X5: a video that [create_video] leaves at the output path, unless it is
    the one that was there before, is an [mp4v] video at the given frame
    rate with at least one frame, whose frames all have the size the video
    declares; it is released exactly when [create_video] returned. *)
Theorem create_video_stored_video w image_folder out fps ext s v :
  files (create_video w image_folder out fps ext s).1 !! out = Some v ->
  files s !! out = Some v \/
  (vf_fourcc v = "mp4v" /\ vf_fps v = fps /\ vf_frames v <> [] /\ sized v /\
   (vf_released v = true <-> (create_video w image_folder out fps ext s).2 = Ok tt)).
Proof.
  destruct (create_video_run w image_folder out fps ext s) as (t & ops & r & Hrun & Heq & _).
  rewrite Heq. simpl. rewrite apply_ops_lookup.
  destruct (last_op out ops) as [ov|] eqn:Hlast; simpl; [|by left].
  intros ->. right. apply last_op_Some in Hlast. by eapply Run_stored.
Qed.

Lemma create_video_stored_video_witness :
  exists v,
    files (create_video uniform_world "in" "out.mp4" fps10 "png" initial).1 !! "out.mp4" = Some v /\
    (files initial !! "out.mp4" = Some v \/
     (vf_fourcc v = "mp4v" /\ vf_fps v = fps10 /\ vf_frames v <> [] /\ sized v /\
      (vf_released v = true <->
       (create_video uniform_world "in" "out.mp4" fps10 "png" initial).2 = Ok tt))).
Proof.
  eexists. split; [vm_compute; reflexivity|].
  apply (create_video_stored_video uniform_world "in" "out.mp4" fps10 "png" initial).
  vm_compute. reflexivity.
Defined.



End CreateVideoExtras.

(** ** Every run of the batch *)

Section BatchRuns.
Context (w : World) (output_dir : string) (fps : float).

Lemma after_after t1 ops1 t2 ops2 s :
  after t2 ops2 (after t1 ops1 s) = after (t1 ++ t2) (ops1 ++ ops2) s.
Proof. unfold after; simpl. by rewrite apply_ops_app, app_assoc. Qed.

Lemma process_drive_create_video d s :
  isdir w (rgb_image_folder_of d) = true ->
  process_drive w output_dir fps d s =
    create_video w (rgb_image_folder_of d) (output_video_path_of output_dir d) fps "png"
      (mkState (trace s ++ [EPrint (MsgProcessing (drive_name_of d))]) (files s)).
Proof.
  intros Hdir. unfold process_drive. rewrite Hdir.
  by unfold mbind, M_bind, print, emit.
Qed.

Lemma process_drive_run d s :
  (isdir w (rgb_image_folder_of d) = false /\
   forall s', process_drive w output_dir fps d s' = (after (skip_events d) [] s', Ok tt)) \/
  (isdir w (rgb_image_folder_of d) = true /\
   exists t ops r,
     Run w (rgb_image_folder_of d) (output_video_path_of output_dir d) fps "png" t ops r /\
     process_drive w output_dir fps d s
       = (after (EPrint (MsgProcessing (drive_name_of d)) :: t) ops s, r) /\
     (sinks_open w fps ->
      forall s', process_drive w output_dir fps d s'
                 = (after (EPrint (MsgProcessing (drive_name_of d)) :: t) ops s', r))).
Proof.
  destruct (isdir w (rgb_image_folder_of d)) eqn:Hdir; [right|left]; (split; [done|]).
  - destruct (create_video_run w (rgb_image_folder_of d)
                (output_video_path_of output_dir d) fps "png"
                (mkState (trace s ++ [EPrint (MsgProcessing (drive_name_of d))]) (files s)))
      as (t & ops & r & Hrun & Heq & _ & Hall).
    exists t, ops, r. split; [done|]. split.
    + rewrite process_drive_create_video, Heq by done.
      unfold after; simpl. by rewrite <- app_assoc.
    + intros Hopen s'. rewrite process_drive_create_video, Hall by (done || intros; apply Hopen).
      unfold after; simpl. by rewrite <- app_assoc.
  - intros s'. by rewrite process_drive_missing_folder.
Qed.

(** Every run of the loop over the drives goes one of the ways of [Batch];
    when the sinks open, it goes the same way from every state. *)
Lemma for_each_batch ds : forall s,
  exists t ops r,
    Batch w output_dir fps ds t ops r /\
    for_each (process_drive w output_dir fps) ds s = (after t ops s, r) /\
    (sinks_open w fps ->
     forall s', for_each (process_drive w output_dir fps) ds s' = (after t ops s', r)).
Proof.
  induction ds as [|d ds IH]; intros s.
  - exists [], [], (Ok tt). split; [constructor|].
    assert (forall s', for_each (process_drive w output_dir fps) [] s' = (after [] [] s', Ok tt))
      as H.
    { intros [tr fs]. unfold after; simpl. by rewrite app_nil_r. }
    split; [apply H|]. intros _. apply H.
  - destruct (process_drive_run d s)
      as [[Hdir Hd]|(Hdir & t1 & ops1 & [[]|e] & Hrun & Hd & Hd')].
    + destruct (IH (after (skip_events d) [] s)) as (t & ops & r & Hb & Heq & Hall).
      exists (skip_events d ++ t), ops, r. split; [by constructor|]. split.
      * erewrite for_each_continues by apply Hd. by rewrite Heq, after_after.
      * intros Hopen s'. erewrite for_each_continues by apply Hd.
        by rewrite (Hall Hopen), after_after.
    + destruct (IH (after (EPrint (MsgProcessing (drive_name_of d)) :: t1) ops1 s))
        as (t & ops & r & Hb & Heq & Hall).
      exists (EPrint (MsgProcessing (drive_name_of d)) :: t1 ++ t), (ops1 ++ ops), r.
      split; [by econstructor|]. split.
      * erewrite for_each_continues by apply Hd. by rewrite Heq, after_after.
      * intros Hopen s'. erewrite for_each_continues by apply (Hd' Hopen).
        by rewrite (Hall Hopen), after_after.
    + exists (EPrint (MsgProcessing (drive_name_of d)) :: t1), ops1, (Raise e).
      split; [by eapply BatchRaise|]. split.
      * erewrite for_each_aborts by apply Hd. done.
      * intros Hopen s'. erewrite for_each_aborts by apply (Hd' Hopen). done.
Qed.

End BatchRuns.

Section ProcessAllDrives.
Context (w : World) (kitti_test_root output_dir : string) (fps : float).

Lemma process_all_drives_no_drives s :
  drive_paths_of w kitti_test_root = [] ->
  process_all_drives w kitti_test_root output_dir fps s =
    (after [EPrint MsgDriveStart; EPrint (MsgSearching kitti_test_root); EPrint MsgNoDrives]
           [] s, Ok tt).
Proof.
  intros H. unfold process_all_drives. fold (drive_paths_of w kitti_test_root). rewrite H.
  unfold mbind, M_bind, print, emit, after; simpl. by rewrite <- !app_assoc.
Qed.

Lemma process_all_drives_loop t ops r s :
  drive_paths_of w kitti_test_root <> [] ->
  makedirs w output_dir = None ->
  for_each (process_drive w output_dir fps) (drive_paths_of w kitti_test_root)
    (mkState
       (trace s ++ batch_opening kitti_test_root output_dir
                     (length (drive_paths_of w kitti_test_root)))
       (files s))
    = (after t ops
         (mkState
            (trace s ++ batch_opening kitti_test_root output_dir
                          (length (drive_paths_of w kitti_test_root)))
            (files s)), r) ->
  process_all_drives w kitti_test_root output_dir fps s =
    (after (batch_opening kitti_test_root output_dir
              (length (drive_paths_of w kitti_test_root)) ++ t ++ batch_closing r)
           ops s, r).
Proof.
  intros Hne Hmk Heq. rewrite process_all_drives_unfold, Hmk, Heq by done.
  unfold after, batch_closing. destruct r as [[]|e]; cbn [trace files].
  - by rewrite <- !app_assoc.
  - by rewrite app_nil_r, <- !app_assoc.
Qed.

(** Every call of [process_all_drives] goes one of the ways of [BatchRun];
    when the sinks open, it goes the same way from every state. *)
Lemma process_all_drives_run s :
  exists t ops r,
    BatchRun w kitti_test_root output_dir fps t ops r /\
    process_all_drives w kitti_test_root output_dir fps s = (after t ops s, r) /\
    (sinks_open w fps ->
     forall s', process_all_drives w kitti_test_root output_dir fps s' = (after t ops s', r)).
Proof.
  destruct (decide (drive_paths_of w kitti_test_root = [])) as [Hnil|Hne].
  { eexists _, _, _. split; [by apply BatchNoDrives|].
    split; [by apply process_all_drives_no_drives|].
    intros _ s'. by apply process_all_drives_no_drives. }
  destruct (makedirs w output_dir) as [e|] eqn:Hmk.
  { eexists _, _, _. split; [by apply BatchRefused|].
    split; [by rewrite process_all_drives_unfold, Hmk|].
    intros _ s'. by rewrite process_all_drives_unfold, Hmk. }
  destruct (for_each_batch w output_dir fps (drive_paths_of w kitti_test_root)
              (mkState
                 (trace s ++ batch_opening kitti_test_root output_dir
                               (length (drive_paths_of w kitti_test_root)))
                 (files s)))
    as (t & ops & r & Hb & Heq & Hall).
  eexists _, _, _. split; [by apply BatchLoop|].
  split; [by apply process_all_drives_loop|].
  intros Hopen s'. apply process_all_drives_loop; try done. apply (Hall Hopen).
Qed.

End ProcessAllDrives.

Section BatchFacts.
Context (w : World) (output_dir : string) (fps : float).

Lemma omap_writes {B} (line : Event -> option B) out (frames : list Frame) :
  (forall f, line (EWrite out f) = None) -> omap line (EWrite out <$> frames) = [].
Proof. intros H. induction frames as [|f frames IH]; simpl; [done|]. by rewrite H. Qed.

(** [create_video] prints no line about drives. *)
Lemma Run_quiet image_folder out ext t ops r :
  Run w image_folder out fps ext t ops r ->
  omap processing_line t = [] /\ omap skipping_line t = [].
Proof.
  destruct 1; unfold preamble, banner, abort_events, abort_events_no_file, sort_messages;
    repeat match goal with
           | |- context [mapM sort_key ?l] => destruct (mapM sort_key l)
           end;
    rewrite ?omap_app, ?omap_writes by done; done.
Qed.

Lemma Batch_paths ds t ops r :
  Batch w output_dir fps ds t ops r ->
  Forall (fun op => exists d, d ∈ ds /\ isdir w (rgb_image_folder_of d) = true /\
                              op.1 = output_video_path_of output_dir d) ops.
Proof.
  induction 1 as [|d ds t ops r Hdir _ IH|d ds t1 ops1 t ops r Hdir Hrun _ IH
                  |d ds t1 ops1 e Hdir Hrun].
  - constructor.
  - eapply Forall_impl; [exact IH|]. intros op (d' & Hd' & H). exists d'.
    split; [by apply list_elem_of_further|done].
  - apply Forall_app. split.
    + eapply Forall_impl; [by eapply Run_path|]. intros op Hop. exists d.
      split; [apply list_elem_of_here|done].
    + eapply Forall_impl; [exact IH|]. intros op (d' & Hd' & H). exists d'.
      split; [by apply list_elem_of_further|done].
  - eapply Forall_impl; [by eapply Run_path|]. intros op Hop. exists d.
    split; [apply list_elem_of_here|done].
Qed.

Lemma processing_skip_events d :
  omap processing_line (skip_events d) = [drive_name_of d].
Proof. reflexivity. Qed.

Lemma skipping_skip_events d :
  omap skipping_line (skip_events d) = [drive_name_of d].
Proof. reflexivity. Qed.

Lemma omap_announce {B} (line : Event -> option B) d t :
  omap line (EPrint (MsgProcessing (drive_name_of d)) :: t)
    = omap line [EPrint (MsgProcessing (drive_name_of d))] ++ omap line t.
Proof. by rewrite <- omap_app. Qed.

(** The drives are announced in the order of the list, up to the drive at
    which the loop stops. *)
Lemma Batch_processing ds t ops r :
  Batch w output_dir fps ds t ops r ->
  omap processing_line t `prefix_of` (drive_name_of <$> ds) /\
  (r = Ok tt -> omap processing_line t = drive_name_of <$> ds).
Proof.
  induction 1 as [|d ds t ops r Hdir _ [IH1 IH2]|d ds t1 ops1 t ops r Hdir Hrun _ [IH1 IH2]
                  |d ds t1 ops1 e Hdir Hrun].
  - done.
  - rewrite omap_app, processing_skip_events, fmap_cons.
    split; [|intros Hr; by rewrite IH2].
    destruct IH1 as [k Hk]. exists k. by rewrite Hk.
  - destruct (Run_quiet _ _ _ _ _ _ Hrun) as [Hq _].
    rewrite omap_announce, omap_app, Hq, fmap_cons.
    split; [|intros Hr; by rewrite IH2].
    destruct IH1 as [k Hk]. exists k. by rewrite Hk.
  - destruct (Run_quiet _ _ _ _ _ _ Hrun) as [Hq _].
    rewrite omap_announce, Hq, fmap_cons. split; [|done].
    by exists (drive_name_of <$> ds).
Qed.

(** The drives without their image folder, and no others, are warned about. *)
Lemma Batch_skipping ds t ops r :
  Batch w output_dir fps ds t ops r ->
  r = Ok tt ->
  omap skipping_line t
    = drive_name_of <$> filter (fun d => isdir w (rgb_image_folder_of d) = false) ds.
Proof.
  induction 1 as [|d ds t ops r Hdir _ IH|d ds t1 ops1 t ops r Hdir Hrun _ IH
                  |d ds t1 ops1 e Hdir Hrun]; intros Hr; [done| | |done].
  - rewrite filter_cons. case_decide; [|done].
    by rewrite omap_app, skipping_skip_events, fmap_cons, IH.
  - destruct (Run_quiet _ _ _ _ _ _ Hrun) as [_ Hq].
    rewrite filter_cons. case_decide; [congruence|].
    rewrite omap_announce, omap_app, Hq. by apply IH.
Qed.

(** The loop raises what the conversion of one of its drives raises. *)
Lemma Batch_raise ds t ops r e :
  Batch w output_dir fps ds t ops r -> r = Raise e ->
  exists d t1 ops1,
    d ∈ ds /\ isdir w (rgb_image_folder_of d) = true /\
    Run w (rgb_image_folder_of d) (output_video_path_of output_dir d) fps "png"
        t1 ops1 (Raise e).
Proof.
  induction 1 as [|d ds t ops r Hdir _ IH|d ds t1 ops1 t ops r Hdir Hrun _ IH
                  |d ds t1 ops1 e' Hdir Hrun]; intros Hr; [done| | |].
  - destruct (IH Hr) as (d' & t' & ops' & Hd' & H).
    exists d', t', ops'. split; [by apply list_elem_of_further|done].
  - destruct (IH Hr) as (d' & t' & ops' & Hd' & H).
    exists d', t', ops'. split; [by apply list_elem_of_further|done].
  - injection Hr as ->. exists d, t1, ops1. split; [apply list_elem_of_here|done].
Qed.

End BatchFacts.

(** ** Order, warnings, exceptions and files of the batch *)

Section BatchExtras.
Context (w : World) (kitti_test_root output_dir : string) (fps : float).

(** X7: when no drive directory is found, [process_all_drives] says so and
    returns: the output directory is not created and the file store is left
    as it was. *)
Theorem process_all_drives_nothing_found s :
  drive_paths_of w kitti_test_root = [] ->
  (process_all_drives w kitti_test_root output_dir fps s).2 = Ok tt /\
  files (process_all_drives w kitti_test_root output_dir fps s).1 = files s /\
  trace (process_all_drives w kitti_test_root output_dir fps s).1 =
    trace s ++ [EPrint MsgDriveStart; EPrint (MsgSearching kitti_test_root);
                EPrint MsgNoDrives].
Proof. intros H. by rewrite process_all_drives_no_drives. Qed.

(** X8: [process_all_drives] announces the drives in the sorted order of
    their paths: the "Processing drive" lines it prints name the first drives
    of the sorted list, one line each, and all of the drives when it
    returns. *)
Theorem process_all_drives_order s :
  exists t,
    trace (process_all_drives w kitti_test_root output_dir fps s).1 = trace s ++ t /\
    omap processing_line t `prefix_of` (drive_name_of <$> drive_paths_of w kitti_test_root) /\
    ((process_all_drives w kitti_test_root output_dir fps s).2 = Ok tt ->
     omap processing_line t = drive_name_of <$> drive_paths_of w kitti_test_root).
Proof.
  destruct (process_all_drives_run w kitti_test_root output_dir fps s)
    as (t & ops & r & Hrun & Heq & _).
  rewrite Heq. exists t. split; [done|]. simpl.
  destruct Hrun as [Hnil|e Hne Hmk|t ops r Hne Hmk Hb].
  - rewrite Hnil. split; [apply prefix_nil|done].
  - split; [apply prefix_nil|done].
  - destruct (Batch_processing _ _ _ _ _ _ _ Hb) as [Hp He].
    assert (omap processing_line
              (batch_opening kitti_test_root output_dir
                 (length (drive_paths_of w kitti_test_root)) ++ t ++ batch_closing r)
            = omap processing_line t) as ->.
    { rewrite !omap_app. simpl. destruct r; simpl; by rewrite app_nil_r. }
    done.
Qed.

(** X9: when [process_all_drives] returns, it has printed one "Skipping"
    warning for each drive that lacks its image folder, in sorted order, and
    none for any other drive. *)
Theorem process_all_drives_skips s :
  (process_all_drives w kitti_test_root output_dir fps s).2 = Ok tt ->
  exists t,
    trace (process_all_drives w kitti_test_root output_dir fps s).1 = trace s ++ t /\
    omap skipping_line t = drive_name_of <$> drives_without_folder w kitti_test_root.
Proof.
  unfold drives_without_folder.
  destruct (process_all_drives_run w kitti_test_root output_dir fps s)
    as (t & ops & r & Hrun & Heq & _).
  rewrite Heq. simpl. intros Hr. exists t. split; [done|].
  destruct Hrun as [Hnil|e Hne Hmk|t ops r Hne Hmk Hb]; [by rewrite Hnil|done|].
  assert (omap skipping_line
            (batch_opening kitti_test_root output_dir
               (length (drive_paths_of w kitti_test_root)) ++ t ++ batch_closing r)
          = omap skipping_line t) as ->.
  { rewrite !omap_app. simpl. destruct r; simpl; by rewrite app_nil_r. }
  by eapply Batch_skipping.
Qed.

(** X10: an exception leaves [process_all_drives] only when at least one
    drive was found, and it is the one [os.makedirs] raises for the output
    directory, or the one [create_video] raises for a drive that has its
    image folder: [AttributeError] at a file, after the first in sorted
    order, that cannot be decoded while the files before it can, or the
    exception of [os.remove] at such a file of another size than the first
    frame when the sink of that drive had not opened. *)
Theorem process_all_drives_exceptions s e :
  (process_all_drives w kitti_test_root output_dir fps s).2 = Raise e ->
  drive_paths_of w kitti_test_root <> [] /\
  (makedirs w output_dir = Some e \/
   makedirs w output_dir = None /\
   exists d first pre bad post first_frame frames,
     d ∈ drive_paths_of w kitti_test_root /\
     isdir w (rgb_image_folder_of d) = true /\
     sorted_files (glob w (search_pattern_of (rgb_image_folder_of d) "png"))
       = (first :: pre) ++ bad :: post /\
     mapM (imread w) (first :: pre) = Some (first_frame :: frames) /\
     ((e = AttributeError /\ imread w bad = None) \/
      (e = remove_error w (output_video_path_of output_dir d) /\
       (exists bad_frame,
          imread w bad = Some bad_frame /\
          resolution_differs bad_frame (height first_frame) (width first_frame) = true) /\
       writer_opens w (output_video_path_of output_dir d) "mp4v" fps
         (width first_frame, height first_frame) = false))).
Proof.
  destruct (process_all_drives_run w kitti_test_root output_dir fps s)
    as (t & ops & r & Hrun & Heq & _).
  rewrite Heq. simpl. clear Heq.
  destruct Hrun as [Hnil|e' Hne Hmk|t ops r Hne Hmk Hb]; intros Hr; [done| |].
  - injection Hr as ->. split; [done|]. by left.
  - split; [done|]. right. split; [done|].
    destruct (Batch_raise _ _ _ _ _ _ _ e Hb Hr) as (d & t1 & ops1 & Hd & Hdir & Hrun1).
    destruct (Run_raise _ _ _ _ _ _ _ _ e Hrun1 eq_refl)
      as (first & pre & bad & post & ff & frames & H).
    by exists d, first, pre, bad, post, ff, frames.
Qed.

(** X11: [process_all_drives] leaves every file as it was, except at the
    output paths of the drives that have their image folder. *)
Theorem process_all_drives_other_files_untouched s path :
  (forall d, d ∈ drives_with_folder w kitti_test_root ->
             path <> output_video_path_of output_dir d) ->
  files (process_all_drives w kitti_test_root output_dir fps s).1 !! path = files s !! path.
Proof.
  intros Hpath.
  destruct (process_all_drives_run w kitti_test_root output_dir fps s)
    as (t & ops & r & Hrun & Heq & _).
  rewrite Heq. simpl. rewrite apply_ops_lookup.
  destruct Hrun as [Hnil|e Hne Hmk|t ops r Hne Hmk Hb]; [done|done|].
  rewrite last_op_None; [done|].
  eapply Forall_impl; [by eapply Batch_paths|].
  intros op (d & Hd & Hdir & Hop) Hop'. apply (Hpath d); [|congruence].
  unfold drives_with_folder. by apply list_elem_of_filter.
Qed.

(** X12: with encoders that open, running [process_all_drives] again on
    the state it left ends the same way and leaves the same files. *)
Theorem process_all_drives_rerun s :
  sinks_open w fps ->
  let once := process_all_drives w kitti_test_root output_dir fps s in
  let twice := process_all_drives w kitti_test_root output_dir fps once.1 in
  twice.2 = once.2 /\ files twice.1 = files once.1.
Proof.
  intros Hopen.
  destruct (process_all_drives_run w kitti_test_root output_dir fps s)
    as (t & ops & r & Hrun & _ & Heq).
  specialize (Heq Hopen). simpl. rewrite !Heq. simpl. split; [done|]. apply apply_ops_idemp.
Qed.

End BatchExtras.

Lemma process_all_drives_nothing_found_witness :
  (process_all_drives no_drives_world "kitti" "videos" fps10 initial).2 = Ok tt /\
  files (process_all_drives no_drives_world "kitti" "videos" fps10 initial).1 = files initial /\
  trace (process_all_drives no_drives_world "kitti" "videos" fps10 initial).1 =
    trace initial ++ [EPrint MsgDriveStart; EPrint (MsgSearching "kitti"); EPrint MsgNoDrives].
Proof.
  apply (process_all_drives_nothing_found no_drives_world "kitti" "videos" fps10 initial).
  reflexivity.
Defined.

Lemma process_all_drives_skips_witness :
  exists t,
    trace (process_all_drives mixed_batch "kitti" "videos" fps10 initial).1 = trace initial ++ t /\
    omap skipping_line t = drive_name_of <$> drives_without_folder mixed_batch "kitti".
Proof.
  apply (process_all_drives_skips mixed_batch "kitti" "videos" fps10 initial).
  vm_compute. reflexivity.
Defined.

(** The output directory is a regular file. *)
Lemma process_all_drives_exceptions_witness :
  drive_paths_of (with_makedirs_error "videos" FileExistsError mixed_batch) "kitti" <> [] /\
  (makedirs (with_makedirs_error "videos" FileExistsError mixed_batch) "videos"
     = Some FileExistsError \/
   makedirs (with_makedirs_error "videos" FileExistsError mixed_batch) "videos" = None /\
   exists d first pre bad post first_frame frames,
     d ∈ drive_paths_of (with_makedirs_error "videos" FileExistsError mixed_batch) "kitti" /\
     isdir (with_makedirs_error "videos" FileExistsError mixed_batch)
       (rgb_image_folder_of d) = true /\
     sorted_files (glob (with_makedirs_error "videos" FileExistsError mixed_batch)
                     (search_pattern_of (rgb_image_folder_of d) "png"))
       = (first :: pre) ++ bad :: post /\
     mapM (imread (with_makedirs_error "videos" FileExistsError mixed_batch)) (first :: pre)
       = Some (first_frame :: frames) /\
     ((FileExistsError = AttributeError /\
       imread (with_makedirs_error "videos" FileExistsError mixed_batch) bad = None) \/
      (FileExistsError
         = remove_error (with_makedirs_error "videos" FileExistsError mixed_batch)
             (output_video_path_of "videos" d) /\
       (exists bad_frame,
          imread (with_makedirs_error "videos" FileExistsError mixed_batch) bad
            = Some bad_frame /\
          resolution_differs bad_frame (height first_frame) (width first_frame) = true) /\
       writer_opens (with_makedirs_error "videos" FileExistsError mixed_batch)
         (output_video_path_of "videos" d) "mp4v" fps10
         (width first_frame, height first_frame) = false))).
Proof.
  apply (process_all_drives_exceptions
           (with_makedirs_error "videos" FileExistsError mixed_batch)
           "kitti" "videos" fps10 initial).
  vm_compute. reflexivity.
Defined.

Lemma process_all_drives_other_files_untouched_witness :
  files (process_all_drives mixed_batch "kitti" "videos" fps10 initial).1 !! "videos/other.mp4"
    = files initial !! "videos/other.mp4".
Proof.
  apply (process_all_drives_other_files_untouched mixed_batch "kitti" "videos" fps10 initial).
  intros d Hd. vm_compute in Hd. apply list_elem_of_singleton in Hd. subst d.
  discriminate.
Defined.

Lemma process_all_drives_rerun_witness :
  let once := process_all_drives mixed_batch "kitti" "videos" fps10 initial in
  let twice := process_all_drives mixed_batch "kitti" "videos" fps10 once.1 in
  twice.2 = once.2 /\ files twice.1 = files once.1.
Proof.
  apply (process_all_drives_rerun mixed_batch "kitti" "videos" fps10 initial).
  intros path size. reflexivity.
Defined.

(** ** The videos a batch leaves *)

Section Converted.
Context (w : World) (output_dir : string) (fps : float).

(** With files that all decode to one size, a run is the complete one. *)
Lemma Run_uniform image_folder out ext h0 w0 t ops r :
  glob w (search_pattern_of image_folder ext) <> [] ->
  Forall (fun p => exists f, imread w p = Some f /\ height f = h0 /\ width f = w0)
         (glob w (search_pattern_of image_folder ext)) ->
  Run w image_folder out fps ext t ops r ->
  exists frames,
    mapM (imread w) (sorted_files (glob w (search_pattern_of image_folder ext))) = Some frames /\
    ops = stored (writer_opens w out "mp4v" fps (w0, h0)) out
            (mkVideo "mp4v" fps (w0, h0) frames true) /\
    r = Ok tt.
Proof.
  intros Hne Hall Hrun.
  rewrite <- (sorted_files_perm _) in Hall.
  destruct Hrun as [Hglob|first rest Hs Hfirst|first rest ff frames Hs Hacc
                    |first pre bad post ff frames bf Hs Hacc Hbad Hdiff
                    |first pre bad post ff frames bf Hs Hacc Hbad Hdiff Hclosed
                    |first pre bad post ff frames Hs Hacc Hbad].
  - done.
  - rewrite Hs in Hall. apply Forall_cons in Hall as [(f & Hf & _) _]. congruence.
  - rewrite Hs in *. exists (ff :: frames). split; [by eapply accepted_decoded|].
    split; [|done].
    apply Forall_cons in Hall as [(f & Hf & Hh & Hw) _].
    apply Forall2_cons in Hacc as [[Hff _] _].
    assert (f = ff) as -> by congruence. by rewrite Hh, Hw.
  - rewrite Hs in Hall. apply Forall_app in Hall as [Hpre Hall].
    apply Forall_cons in Hpre as [(f & Hf & Hh & Hw) _].
    apply Forall2_cons in Hacc as [[Hff _] _].
    assert (f = ff) as -> by congruence.
    apply Forall_cons in Hall as [(b & Hb & Hbh & Hbw) _].
    assert (b = bf) as -> by congruence.
    apply resolution_differs_true in Hdiff. lia.
  - rewrite Hs in Hall. apply Forall_app in Hall as [Hpre Hall].
    apply Forall_cons in Hpre as [(f & Hf & Hh & Hw) _].
    apply Forall2_cons in Hacc as [[Hff _] _].
    assert (f = ff) as -> by congruence.
    apply Forall_cons in Hall as [(b & Hb & Hbh & Hbw) _].
    assert (b = bf) as -> by congruence.
    apply resolution_differs_true in Hdiff. lia.
  - rewrite Hs in Hall. apply Forall_app in Hall as [_ Hall].
    apply Forall_cons in Hall as [(b & Hb & _) _]. congruence.
Qed.

(** Whatever the loop last did to a path was done by the conversion of one
    of its drives. *)
Lemma Batch_last_Some ds t ops r path ov :
  Batch w output_dir fps ds t ops r ->
  last_op path ops = Some ov ->
  exists d t1 ops1 r1,
    d ∈ ds /\ isdir w (rgb_image_folder_of d) = true /\
    Run w (rgb_image_folder_of d) (output_video_path_of output_dir d) fps "png" t1 ops1 r1 /\
    last_op path ops1 = Some ov /\
    (r = Ok tt -> r1 = Ok tt).
Proof.
  induction 1 as [|d ds t ops r Hdir _ IH|d ds t1 ops1 t ops r Hdir Hrun _ IH
                  |d ds t1 ops1 e Hdir Hrun]; intros Hlast.
  - done.
  - destruct (IH Hlast) as (d' & t' & ops' & r' & Hd' & H).
    exists d', t', ops', r'. split; [by apply list_elem_of_further|done].
  - rewrite last_op_app in Hlast. destruct (last_op path ops) as [x|] eqn:Hx.
    + injection Hlast as ->.
      destruct (IH eq_refl) as (d' & t' & ops' & r' & Hd' & H).
      exists d', t', ops', r'. split; [by apply list_elem_of_further|done].
    + exists d, t1, ops1, (Ok tt). split; [apply list_elem_of_here|done].
  - exists d, t1, ops1, (Raise e). split; [apply list_elem_of_here|done].
Qed.

(** When the loop reaches its end, the conversion of each drive with an
    image folder has left its mark on the drive's output path, unless a
    later drive wrote there. *)
Lemma Batch_member ds t ops d :
  Batch w output_dir fps ds t ops (Ok tt) ->
  d ∈ ds -> isdir w (rgb_image_folder_of d) = true ->
  exists t1 ops1,
    Run w (rgb_image_folder_of d) (output_video_path_of output_dir d) fps "png"
        t1 ops1 (Ok tt) /\
    forall path, is_Some (last_op path ops1) -> is_Some (last_op path ops).
Proof.
  intros Hb. remember (Ok tt) as r eqn:Hr.
  induction Hb as [|d0 ds t ops r Hdir _ IH|d0 ds t1 ops1 t ops r Hdir Hrun _ IH
                  |d0 ds t1 ops1 e Hdir Hrun]; intros Hd Hisdir; [|..|done].
  - by apply elem_of_nil in Hd.
  - apply elem_of_cons in Hd as [->|Hd]; [congruence|]. by apply IH.
  - subst r. apply elem_of_cons in Hd as [->|Hd].
    + exists t1, ops1. split; [done|]. intros path [x Hx].
      rewrite last_op_app, Hx. by destruct (last_op path ops).
    + destruct (IH eq_refl Hd Hisdir) as (t' & ops' & Hrun' & H).
      exists t', ops'. split; [done|]. intros path Hp.
      rewrite last_op_app. destruct (H path Hp) as [x ->]. done.
Qed.

End Converted.

Section ConvertedExtras.
Context (w : World) (kitti_test_root output_dir : string) (fps : float).

(** X13: when [process_all_drives] returns, a drive whose image folder holds
    at least one file and only files that decode to one size, and whose
    encoder opens for that size, has at its output path the released video of
    all its frames in sorted order, provided no other drive with an image
    folder has the same output path. *)
Theorem process_all_drives_converts s d h0 w0 :
  (process_all_drives w kitti_test_root output_dir fps s).2 = Ok tt ->
  d ∈ drives_with_folder w kitti_test_root ->
  glob w (search_pattern_of (rgb_image_folder_of d) "png") <> [] ->
  Forall (fun p => exists f, imread w p = Some f /\ height f = h0 /\ width f = w0)
         (glob w (search_pattern_of (rgb_image_folder_of d) "png")) ->
  writer_opens w (output_video_path_of output_dir d) "mp4v" fps (w0, h0) = true ->
  (forall d', d' ∈ drives_with_folder w kitti_test_root ->
              output_video_path_of output_dir d' = output_video_path_of output_dir d ->
              d' = d) ->
  exists frames,
    mapM (imread w)
         (sorted_files (glob w (search_pattern_of (rgb_image_folder_of d) "png")))
      = Some frames /\
    files (process_all_drives w kitti_test_root output_dir fps s).1
      !! output_video_path_of output_dir d
      = Some (mkVideo "mp4v" fps (w0, h0) frames true).
Proof.
  intros Hok Hd Hne Hall Hopens Hinj.
  unfold drives_with_folder in Hd, Hinj. apply list_elem_of_filter in Hd as [Hdir Hd].
  destruct (process_all_drives_run w kitti_test_root output_dir fps s)
    as (t & ops & r & Hrun & Heq & _).
  rewrite Heq in Hok |- *. cbn [fst snd files after] in *. clear Heq.
  destruct Hrun as [Hnil|e Hdrives Hmk|t ops r Hdrives Hmk Hb]; [|done|subst r].
  { rewrite Hnil in Hd. by apply elem_of_nil in Hd. }
  destruct (Batch_member _ _ _ _ _ _ _ Hb Hd Hdir) as (t1 & ops1 & Hrun1 & Hlater).
  destruct (Run_uniform w fps _ _ _ h0 w0 _ _ _ Hne Hall Hrun1) as (frames & Hframes & -> & _).
  rewrite Hopens in Hlater.
  exists frames. split; [done|].
  destruct (Hlater (output_video_path_of output_dir d)) as [ov Hov].
  { simpl. case_decide; [by eexists|done]. }
  destruct (Batch_last_Some _ _ _ _ _ _ _ _ _ Hb Hov)
    as (d' & t' & ops' & r' & Hd' & Hdir' & Hrun' & Hlast' & _).
  assert (output_video_path_of output_dir d' = output_video_path_of output_dir d) as Hsame.
  { apply last_op_Some in Hlast'.
    apply (proj1 (Forall_forall _ _) (Run_path _ _ _ _ _ _ _ _ Hrun')) in Hlast'. done. }
  assert (d' = d) as ->.
  { apply Hinj; [|done]. by apply list_elem_of_filter. }
  destruct (Run_uniform w fps _ _ _ h0 w0 _ _ _ Hne Hall Hrun') as (frames' & Hframes' & -> & _).
  assert (frames' = frames) as -> by congruence.
  rewrite Hopens in Hlast'.
  simpl in Hlast'. case_decide; [|done]. injection Hlast' as <-.
  by rewrite apply_ops_lookup, Hov.
Qed.

End ConvertedExtras.

Lemma process_all_drives_converts_witness :
  exists frames,
    mapM (imread mixed_batch)
         (sorted_files (glob mixed_batch (search_pattern_of (rgb_image_folder_of drive2) "png")))
      = Some frames /\
    files (process_all_drives mixed_batch "kitti" "videos" fps10 initial).1
      !! output_video_path_of "videos" drive2
      = Some (mkVideo "mp4v" fps10 (4, 2) frames true).
Proof.
  apply (process_all_drives_converts mixed_batch "kitti" "videos" fps10 initial drive2 2 4).
  - vm_compute. reflexivity.
  - vm_compute. apply list_elem_of_here.
  - discriminate.
  - repeat constructor. eexists. split; [reflexivity|]. split; reflexivity.
  - reflexivity.
  - intros d' Hd' _. vm_compute in Hd'. by apply list_elem_of_singleton in Hd'.
Defined.


Section NoTruncated.
Context (w : World) (kitti_test_root output_dir : string) (fps : float).

(** X20: when [process_all_drives] returns, every video it has written is
    released, not empty, and holds only frames of the size it declares: a
    batch that reaches its end leaves no truncated video. *)
Theorem process_all_drives_no_truncated s path v :
  (process_all_drives w kitti_test_root output_dir fps s).2 = Ok tt ->
  files (process_all_drives w kitti_test_root output_dir fps s).1 !! path = Some v ->
  files s !! path = Some v \/
  (vf_released v = true /\ sized v /\ vf_frames v <> [] /\
   vf_fps v = fps /\ vf_fourcc v = "mp4v").
Proof.
  destruct (process_all_drives_run w kitti_test_root output_dir fps s)
    as (t & ops & r & Hrun & Heq & _).
  rewrite Heq. cbn [fst snd files after]. clear Heq.
  destruct Hrun as [Hnil|e Hdrives Hmk|t ops r Hdrives Hmk Hb]; intros Hr;
    [by left|done|subst r].
  rewrite apply_ops_lookup.
  destruct (last_op path ops) as [ov|] eqn:Hlast; simpl; [|by left].
  intros ->. right.
  destruct (Batch_last_Some _ _ _ _ _ _ _ _ _ Hb Hlast)
    as (d & t1 & ops1 & r1 & Hd & Hdir & Hrun1 & Hlast1 & Hok).
  rewrite (Hok eq_refl) in Hrun1. apply last_op_Some in Hlast1.
  assert (path = output_video_path_of output_dir d) as ->.
  { apply (proj1 (Forall_forall _ _) (Run_path _ _ _ _ _ _ _ _ Hrun1)) in Hlast1. done. }
  destruct (Run_stored _ _ _ _ _ _ _ _ _ Hrun1 Hlast1) as (H1 & H2 & H3 & H4 & H5).
  repeat split; try done. by apply H5.
Qed.

End NoTruncated.

Lemma process_all_drives_no_truncated_witness :
  exists v,
    files (process_all_drives mixed_batch "kitti" "videos" fps10 initial).1
      !! output_video_path_of "videos" drive2 = Some v /\
    (files initial !! output_video_path_of "videos" drive2 = Some v \/
     (vf_released v = true /\ sized v /\ vf_frames v <> [] /\
      vf_fps v = fps10 /\ vf_fourcc v = "mp4v")).
Proof.
  eexists. split; [vm_compute; reflexivity|].
  apply (process_all_drives_no_truncated mixed_batch "kitti" "videos" fps10 initial);
    vm_compute; reflexivity.
Defined.

(** ** The sort key *)

Section SortKeys.
Import PyStr.

(** X14: digits in the directory part of a path play no part in the sort
    key: the key of [dir/name] is read from [name] alone. *)
Theorem sort_key_ignores_directory dir name :
  has_sep name = false ->
  sort_key (dir +:+ "/" +:+ name) = int <$> re_search_digits name.
Proof. intros H. unfold sort_key. by rewrite basename_join. Qed.

Lemma sort_key_ignores_directory_witness :
  sort_key ("2011_09_26_drive_0002_sync/image_02/data" +:+ "/" +:+ "0000000005.png")
    = int <$> re_search_digits "0000000005.png".
Proof.
  apply (sort_key_ignores_directory "2011_09_26_drive_0002_sync/image_02/data"
           "0000000005.png").
  reflexivity.
Defined.

(** X15: the sort key of a file is the number spelled by the first maximal
    run of digits of its basename, whatever follows the run. *)
Theorem sort_key_first_run f pre r post :
  basename f = pre +:+ r +:+ post ->
  no_digit pre = true ->
  r <> "" -> all_digits r = true ->
  starts_with_digit post = false ->
  sort_key f = Some (int r).
Proof.
  intros Hf Hpre Hne Hr Hpost. unfold sort_key.
  by rewrite Hf, re_search_digits_skip, re_search_digits_run.
Qed.

Lemma sort_key_first_run_witness :
  sort_key "shots/cam2_frame_0012_v3.png" = Some 2%Z.
Proof.
  apply (sort_key_first_run "shots/cam2_frame_0012_v3.png" "cam" "2" "_frame_0012_v3.png");
    try reflexivity.
  discriminate.
Defined.

End SortKeys.

(** ** The order does not depend on the discovery order *)

Section SortedUnique.
Import PySort PySortFacts.

(** Two sorted arrangements of the same elements are the same list, when
    elements that compare both ways are equal. *)
Lemma sorted_perm_unique {A} (R : A -> A -> Prop) (l1 : list A) : forall l2,
  StronglySorted R l1 -> StronglySorted R l2 -> l1 ≡ₚ l2 ->
  (forall a b, a ∈ l1 -> b ∈ l1 -> R a b -> R b a -> a = b) ->
  l1 = l2.
Proof.
  induction l1 as [|a l1 IH]; intros l2 Hs1 Hs2 Hperm Hanti.
  - by apply Permutation_nil in Hperm.
  - destruct l2 as [|b l2]; [by apply Permutation_sym, Permutation_nil in Hperm|].
    apply StronglySorted_inv in Hs1 as [Hs1 Ha].
    apply StronglySorted_inv in Hs2 as [Hs2 Hb].
    assert (a = b) as ->.
    { assert (a ∈ b :: l2) as Hin by (rewrite <- Hperm; apply list_elem_of_here).
      assert (b ∈ a :: l1) as Hin' by (rewrite Hperm; apply list_elem_of_here).
      apply elem_of_cons in Hin as [->|Hin]; [done|].
      apply elem_of_cons in Hin' as [->|Hin']; [done|].
      apply Hanti; [apply list_elem_of_here|by apply list_elem_of_further| |].
      - by apply (proj1 (Forall_forall _ _) Ha).
      - by apply (proj1 (Forall_forall _ _) Hb). }
    f_equal. apply IH; [done|done|by apply Permutation_cons_inv in Hperm|].
    intros x y Hx Hy. apply Hanti; by apply list_elem_of_further.
Qed.

End SortedUnique.

Section OrderInvariance.
Import PySort PySortFacts.

Lemma sort_str_perm_invariant l1 l2 : l1 ≡ₚ l2 -> sort_str l1 = sort_str l2.
Proof.
  intros Hperm.
  apply (sorted_perm_unique (fun a b => String.leb a b = true)).
  - apply sort_str_sorted.
  - apply sort_str_sorted.
  - by rewrite !sort_str_perm.
  - intros a b _ _. apply String.leb_antisym.
Qed.

(** The decorated list of [list.sort(key=...)]. *)
Lemma zip_keys l keys :
  mapM sort_key l = Some keys ->
  zip keys l = (fun f => (default 0%Z (sort_key f), f)) <$> l.
Proof.
  intros H. apply mapM_Some_1 in H.
  induction H as [|f k l keys Hf _ IH]; simpl; [done|]. by rewrite IH, Hf.
Qed.

Lemma NoDup_fmap_eq {A B} (f : A -> B) (l : list A) x y :
  NoDup (f <$> l) -> x ∈ l -> y ∈ l -> f x = f y -> x = y.
Proof.
  induction l as [|a l IH]; intros Hnd Hx Hy Hxy; [by apply elem_of_nil in Hx|].
  rewrite fmap_cons in Hnd. apply NoDup_cons in Hnd as [Ha Hnd].
  apply elem_of_cons in Hx as [->|Hx]; apply elem_of_cons in Hy as [->|Hy]; try done.
  - destruct Ha. rewrite Hxy. by apply list_elem_of_fmap_2.
  - destruct Ha. rewrite <- Hxy. by apply list_elem_of_fmap_2.
  - by apply IH.
Qed.

Lemma sort_keyed_perm_invariant l1 l2 keys1 keys2 :
  mapM sort_key l1 = Some keys1 -> mapM sort_key l2 = Some keys2 ->
  l1 ≡ₚ l2 -> NoDup (sort_key <$> l1) ->
  sort_keyed keys1 l1 = sort_keyed keys2 l2.
Proof.
  intros H1 H2 Hperm Hnd. unfold sort_keyed.
  rewrite (zip_keys _ _ H1), (zip_keys _ _ H2). f_equal.
  apply (sorted_perm_unique (fun a b => le_key a b = true)).
  - apply sort_sorted; [apply le_key_total|apply le_key_trans].
  - apply sort_sorted; [apply le_key_total|apply le_key_trans].
  - by rewrite !sort_perm, Hperm.
  - intros a b Ha Hb Hab Hba. rewrite sort_perm in Ha, Hb.
    apply list_elem_of_fmap in Ha as (f & -> & Hf).
    apply list_elem_of_fmap in Hb as (g & -> & Hg).
    unfold le_key in *. simpl in *.
    assert (Forall (is_Some ∘ sort_key) l1) as Hsome.
    { apply mapM_is_Some_1. by eexists. }
    destruct (proj1 (Forall_forall _ _) Hsome f Hf) as [kf Hkf].
    destruct (proj1 (Forall_forall _ _) Hsome g Hg) as [kg Hkg].
    rewrite Hkf, Hkg in *. simpl in *.
    assert (kf = kg) as -> by lia.
    assert (sort_key f = sort_key g) as Hfg by congruence.
    assert (f = g) as -> by (by eapply NoDup_fmap_eq). done.
Qed.

End OrderInvariance.

Section DiscoveryOrder.
Import PySort PySortFacts.

(** X16: the order in which [create_video] visits the files does not depend
    on the order in which they were discovered, when the numbers of the
    files are pairwise distinct (when some file has no number the plain
    string sort is used, and nothing is asked). *)
Theorem sorted_files_order_independent l1 l2 :
  l1 ≡ₚ l2 ->
  (Forall has_digit_run l1 -> NoDup (sort_key <$> l1)) ->
  sorted_files l1 = sorted_files l2.
Proof.
  intros Hperm Hnd. unfold sorted_files.
  destruct (mapM sort_key l1) as [keys1|] eqn:H1.
  - assert (is_Some (mapM sort_key l2)) as [keys2 H2].
    { apply mapM_is_Some_2. rewrite <- Hperm. apply mapM_is_Some_1. by eexists. }
    rewrite H2. apply sort_keyed_perm_invariant; try done.
    apply Hnd. assert (Forall (is_Some ∘ sort_key) l1) as Hsome.
    { apply mapM_is_Some_1. by eexists. }
    eapply Forall_impl; [exact Hsome|]. intros f [k Hk]. unfold has_digit_run.
    unfold sort_key in Hk. destruct (PyStr.re_search_digits (PyStr.basename f)); [by eexists|done].
  - assert (mapM sort_key l2 = None) as ->.
    { apply mapM_None. rewrite <- Hperm. by apply mapM_None. }
    by apply sort_str_perm_invariant.
Qed.

Lemma sorted_files_order_independent_witness :
  sorted_files ["in/frame10.png"; "in/frame2.png"]
    = sorted_files ["in/frame2.png"; "in/frame10.png"].
Proof.
  apply (sorted_files_order_independent
           ["in/frame10.png"; "in/frame2.png"] ["in/frame2.png"; "in/frame10.png"]).
  - apply perm_swap.
  - intros _. apply NoDup_cons. split; [|apply NoDup_singleton].
    intros H. apply list_elem_of_singleton in H. discriminate.
Defined.

(** X17: the order in which the drives are processed does not depend on the
    order in which the filesystem lists them. *)
Theorem drive_paths_order_independent w1 w2 kitti_test_root :
  glob w1 (PyStr.path_join kitti_test_root ["*"; "*_sync"])
    ≡ₚ glob w2 (PyStr.path_join kitti_test_root ["*"; "*_sync"]) ->
  drive_paths_of w1 kitti_test_root = drive_paths_of w2 kitti_test_root.
Proof. intros H. unfold drive_paths_of. by apply sort_str_perm_invariant. Qed.

Lemma drive_paths_order_independent_witness :
  drive_paths_of listing_a "kitti" = drive_paths_of listing_b "kitti".
Proof.
  apply (drive_paths_order_independent listing_a listing_b "kitti").
  apply perm_swap.
Defined.

End DiscoveryOrder.

(** ** Zero-padded names *)

Section ZeroPadded.
Import PyStr PySort PySortFacts.

Lemma append_assoc a b c : (a +:+ b) +:+ c = a +:+ b +:+ c.
Proof.
  induction a as [|x a IH]; [done|]. rewrite !append_cons. by rewrite IH.
Qed.

Lemma ascii_compare_refl c : Ascii.compare c c = Eq.
Proof. unfold Ascii.compare. apply N.compare_refl. Qed.

Lemma string_compare_refl s : String.compare s s = Eq.
Proof. induction s as [|c s IH]; simpl; [done|]. by rewrite ascii_compare_refl. Qed.

Lemma string_compare_prefix p a b :
  String.compare (p +:+ a) (p +:+ b) = String.compare a b.
Proof. induction p as [|c p IH]; simpl; [done|]. by rewrite ascii_compare_refl. Qed.

Lemma digit_value_compare c1 c2 :
  Z.compare (digit_value c1) (digit_value c2) = Ascii.compare c1 c2.
Proof.
  unfold digit_value, Ascii.compare, nat_of_ascii. rewrite !N_nat_Z.
  destruct (N.compare_spec (N_of_ascii c1) (N_of_ascii c2)) as [H|H|H].
  - rewrite H. apply Z.compare_refl.
  - apply Z.compare_lt_iff. lia.
  - apply Z.compare_gt_iff. lia.
Qed.

Lemma digit_value_range c : is_digit c = true -> (0 <= digit_value c <= 9)%Z.
Proof.
  unfold is_digit, digit_value. intros H. apply andb_true_iff in H as [H1 H2].
  apply Nat.leb_le in H1, H2. lia.
Qed.

Lemma compare_step a1 a2 v1 v2 :
  (0 <= v1 <= 9)%Z -> (0 <= v2 <= 9)%Z ->
  Z.compare (10 * a1 + v1) (10 * a2 + v2) =
    match Z.compare a1 a2 with
    | Eq => Z.compare v1 v2
    | c => c
    end.
Proof.
  intros H1 H2. destruct (Z.compare_spec a1 a2) as [->|H|H].
  - destruct (Z.compare_spec v1 v2) as [->|H|H].
    + apply Z.compare_refl.
    + apply Z.compare_lt_iff. lia.
    + apply Z.compare_gt_iff. lia.
  - apply Z.compare_lt_iff. lia.
  - apply Z.compare_gt_iff. lia.
Qed.

(** Digit strings of one length compare as the numbers they spell. *)
Lemma int_from_compare s d1 : forall d2 a1 a2,
  all_digits d1 = true -> all_digits d2 = true ->
  String.length d1 = String.length d2 ->
  Z.compare (int_from a1 d1) (int_from a2 d2) =
    match Z.compare a1 a2 with
    | Eq => String.compare (d1 +:+ s) (d2 +:+ s)
    | c => c
    end.
Proof.
  induction d1 as [|c1 d1 IH]; intros [|c2 d2] a1 a2 H1 H2 Hlen; try done.
  - simpl. rewrite string_compare_refl. by destruct (a1 ?= a2)%Z.
  - simpl in H1, H2, Hlen.
    apply andb_true_iff in H1 as [Hc1 H1]. apply andb_true_iff in H2 as [Hc2 H2].
    cbn [int_from]. rewrite IH by (done || lia).
    rewrite compare_step by by apply digit_value_range.
    rewrite digit_value_compare, !append_cons. cbn [String.compare].
    destruct (a1 ?= a2)%Z; [|done|done]. by destruct (Ascii.compare c1 c2).
Qed.

Lemma all_digits_no_sep d : all_digits d = true -> has_sep d = false.
Proof.
  induction d as [|c d IH]; simpl; [done|]. intros H.
  apply andb_true_iff in H as [Hc H]. rewrite IH by done.
  unfold is_digit, is_sep in *. destruct (Ascii.eqb_spec c "/") as [->|_]; [done|done].
Qed.

(** When the decorated sort and the plain sort compare the elements alike,
    they give the same order. *)
Lemma insert_decorated (key : string -> Z) x L :
  (forall y, y ∈ L -> (key x <=? key y)%Z = String.leb x y) ->
  insert le_key (key x, x) ((fun f => (key f, f)) <$> L)
    = (fun f => (key f, f)) <$> insert String.leb x L.
Proof.
  induction L as [|y L IH]; intros H; [done|].
  simpl. unfold le_key at 1. simpl. rewrite (H y) by apply list_elem_of_here.
  destruct (String.leb x y); [done|]. rewrite fmap_cons. f_equal. apply IH.
  intros z Hz. apply H. by apply list_elem_of_further.
Qed.

Lemma sort_decorated (key : string -> Z) l :
  (forall x y, x ∈ l -> y ∈ l -> (key x <=? key y)%Z = String.leb x y) ->
  sort le_key ((fun f => (key f, f)) <$> l) = (fun f => (key f, f)) <$> sort String.leb l.
Proof.
  induction l as [|x l IH]; intros H; [done|].
  rewrite fmap_cons. cbn [sort]. rewrite IH.
  - apply insert_decorated. intros y Hy. apply H; [apply list_elem_of_here|].
    apply list_elem_of_further. by rewrite <- (sort_perm String.leb l).
  - intros a b Ha Hb. apply H; by apply list_elem_of_further.
Qed.

End ZeroPadded.

Section ZeroPaddedExtras.
Import PyStr PySort PySortFacts.

Lemma zero_padded_key folder stem suffix n f d :
  0 < n -> has_sep stem = false -> no_digit stem = true ->
  has_sep suffix = false -> starts_with_digit suffix = false ->
  f = folder +:+ "/" +:+ stem +:+ d +:+ suffix ->
  all_digits d = true -> String.length d = n ->
  sort_key f = Some (int d).
Proof.
  intros Hn Hstem Hnd Hsuf Hsd -> Hd Hlen. unfold sort_key.
  rewrite basename_join.
  - rewrite re_search_digits_skip, re_search_digits_run; try done.
    intros ->. simpl in Hlen. lia.
  - rewrite !has_sep_app, Hstem, Hsuf, all_digits_no_sep; done.
Qed.

Lemma zero_padded_leb folder stem suffix n f g df dg :
  f = folder +:+ "/" +:+ stem +:+ df +:+ suffix ->
  g = folder +:+ "/" +:+ stem +:+ dg +:+ suffix ->
  all_digits df = true -> all_digits dg = true ->
  String.length df = n -> String.length dg = n ->
  (int df <=? int dg)%Z = String.leb f g.
Proof.
  intros -> -> Hf Hg Lf Lg.
  assert (forall d, folder +:+ "/" +:+ stem +:+ d +:+ suffix
                    = (folder +:+ "/" +:+ stem) +:+ d +:+ suffix) as Hassoc.
  { intros d. by rewrite !append_assoc. }
  rewrite !Hassoc. unfold String.leb, Z.leb, int.
  rewrite string_compare_prefix.
  rewrite (int_from_compare suffix df dg 0 0) by (done || congruence).
  by rewrite Z.compare_refl.
Qed.

(** X18: for zero-padded names, [folder/stem<digits>suffix] with the same
    folder, stem, suffix and number of digits, the numeric order of
    [create_video] is the plain string order: the fallback sort would give
    the same sequence. *)
Theorem zero_padded_numeric_is_lexical folder stem suffix n l :
  0 < n -> has_sep stem = false -> no_digit stem = true ->
  has_sep suffix = false -> starts_with_digit suffix = false ->
  Forall (zero_padded folder stem suffix n) l ->
  sorted_files l = sort_str l.
Proof.
  intros Hn Hstem Hnd Hsuf Hsd Hall.
  assert (is_Some (mapM sort_key l)) as [keys Hkeys].
  { apply mapM_is_Some_2. eapply Forall_impl; [exact Hall|].
    intros f (d & Hf & Hd & Hlen). simpl.
    rewrite (zero_padded_key folder stem suffix n f d) by done. by eexists. }
  unfold sorted_files, sort_keyed, sort_str. rewrite Hkeys, (zip_keys _ _ Hkeys).
  rewrite (sort_decorated (fun f => default 0%Z (sort_key f))).
  - rewrite <- list_fmap_compose. apply list_fmap_id.
  - intros f g Hf Hg.
    destruct (proj1 (Forall_forall _ _) Hall f Hf) as (df & Ef & Hdf & Lf).
    destruct (proj1 (Forall_forall _ _) Hall g Hg) as (dg & Eg & Hdg & Lg).
    rewrite (zero_padded_key folder stem suffix n f df) by done.
    rewrite (zero_padded_key folder stem suffix n g dg) by done.
    simpl. by eapply zero_padded_leb.
Qed.

Lemma zero_padded_numeric_is_lexical_witness :
  sorted_files ["data/0000000010.png"; "data/0000000002.png"]
    = sort_str ["data/0000000010.png"; "data/0000000002.png"].
Proof.
  apply (zero_padded_numeric_is_lexical "data" "" ".png" 10); try reflexivity; [lia|].
  repeat constructor.
  - exists "0000000010". repeat split.
  - exists "0000000002". repeat split.
Defined.

End ZeroPaddedExtras.

(** ** Output paths of different drives *)

Section DistinctOutputs.
Import PyStr.

Lemma append_inj_l a x y : a +:+ x = a +:+ y -> x = y.
Proof.
  induction a as [|c a IH]; [done|]. rewrite !append_cons. intros [= H]. by apply IH.
Qed.

Lemma append_inj_r s x : forall y, x +:+ s = y +:+ s -> x = y.
Proof.
  induction x as [|c x IH]; intros [|d y] H; [done| | |].
  - apply (f_equal String.length) in H. rewrite append_nil, append_cons in H. simpl in H.
    rewrite length_append in H. lia.
  - apply (f_equal String.length) in H. rewrite append_nil, append_cons in H. simpl in H.
    rewrite length_append in H. lia.
  - rewrite !append_cons in H. injection H as -> H. f_equal. by apply IH.
Qed.

Lemma output_video_path_stem output_dir drive_path stem :
  basename drive_path = stem +:+ "_sync" ->
  contains "_sync" stem = false ->
  output_video_path_of output_dir drive_path
    = output_dir +:+ separator_after output_dir +:+ stem +:+ ".mp4".
Proof.
  intros Hbase Hstem.
  unfold output_video_path_of, drive_name_of. rewrite Hbase, replace_sync_suffix by done.
  unfold path_join, join_step, separator_after; simpl.
  assert (has_sep stem = false) as Hsep.
  { pose proof (has_sep_basename drive_path) as H.
    rewrite Hbase, has_sep_app in H. by apply orb_false_iff in H as [H _]. }
  rewrite (startswith_sep_app stem ".mp4") by done.
  by destruct ((String.length output_dir =? 0)%nat || endswith_sep output_dir).
Qed.

(** X19: two drive directories whose basenames are different stems followed
    by [_sync] (with no other [_sync] in them) get different output video
    paths: neither conversion overwrites the other's video. *)
Theorem output_video_paths_distinct output_dir d1 d2 stem1 stem2 :
  basename d1 = stem1 +:+ "_sync" -> contains "_sync" stem1 = false ->
  basename d2 = stem2 +:+ "_sync" -> contains "_sync" stem2 = false ->
  stem1 <> stem2 ->
  output_video_path_of output_dir d1 <> output_video_path_of output_dir d2.
Proof.
  intros H1 C1 H2 C2 Hne Heq.
  rewrite (output_video_path_stem _ _ stem1), (output_video_path_stem _ _ stem2) in Heq by done.
  apply append_inj_l, append_inj_l, append_inj_r in Heq. done.
Qed.

Lemma output_video_paths_distinct_witness :
  output_video_path_of "videos" drive2 <> output_video_path_of "videos" drive5.
Proof.
  apply (output_video_paths_distinct "videos" drive2 drive5
           "2011_09_26_drive_0002" "2011_09_26_drive_0005"); try reflexivity.
  discriminate.
Defined.

End DistinctOutputs.
